(** * json.h: tagged values, their ordering, the reader and the writer

    A shallow embedding of [src/json/json.h].  The tagged union
    [json::element] becomes an inductive type, the owning class
    [json::value] becomes partial functions on elements that perform the
    deep copies the class performs and have no result where the class reads
    a tag it has not written or writes past a buffer, the comparison
    operators become boolean functions, and the recursive-descent reader
    runs over an explicit model of [std::istream].  *)

From Stdlib Require Import Ascii String List ZArith NArith Arith Bool Lia.
From Stdlib Require Import SpecFloat DecimalString.
Import ListNotations.

Local Open Scope char_scope.
Local Open Scope list_scope.

(** ** The type tag *)

Inductive json_element_type : Set :=
| JSON_STRING
| JSON_NUMBER
| JSON_OBJECT
| JSON_ARRAY
| JSON_TRUE
| JSON_FALSE
| JSON_NULL
| JSON_BYTE
| JSON_INT32
| JSON_INT64
| JSON_DATE
| JSON_UNDEFINED.

(** The integer value of each enumerator, in declaration order. *)
Definition ordinal (t : json_element_type) : Z :=
  match t with
  | JSON_STRING => 0
  | JSON_NUMBER => 1
  | JSON_OBJECT => 2
  | JSON_ARRAY => 3
  | JSON_TRUE => 4
  | JSON_FALSE => 5
  | JSON_NULL => 6
  | JSON_BYTE => 7
  | JSON_INT32 => 8
  | JSON_INT64 => 9
  | JSON_DATE => 10
  | JSON_UNDEFINED => 11
  end%Z.

(** Enumerators are compared as integers. *)
Definition type_eqb (t u : json_element_type) : bool := (ordinal t =? ordinal u)%Z.
Definition type_ltb (t u : json_element_type) : bool := (ordinal t <? ordinal u)%Z.

(** ** C strings

    A [const char*] is modelled by the bytes stored from the pointer on; the
    terminating NUL is either an explicit zero byte in the list or the end of
    the list. *)

Definition NUL : ascii := "000".

Definition uchar (c : ascii) : Z := Z.of_N (N_of_ascii c).

Fixpoint strlen (s : list ascii) : N :=
  match s with
  | [] => 0
  | c :: s' => if Ascii.eqb c NUL then 0 else N.succ (strlen s')
  end%N.

(** The bytes [strcpy] stores before the terminator. *)
Fixpoint strcpy (s : list ascii) : list ascii :=
  match s with
  | [] => []
  | c :: s' => if Ascii.eqb c NUL then [] else c :: strcpy s'
  end.

(** [strcmp]: the difference of the first pair of differing bytes, taken as
    [unsigned char]; only its sign is used. *)
Fixpoint strcmp (s t : list ascii) : Z :=
  match s, t with
  | [], [] => 0
  | [], d :: _ => 0 - uchar d
  | c :: _, [] => uchar c - 0
  | c :: s', d :: t' =>
      if Ascii.eqb c d
      then if Ascii.eqb c NUL then 0 else strcmp s' t'
      else uchar c - uchar d
  end%Z.

(** [memcmp(a, b, n) == 0] on two buffers that hold at least [n] bytes. *)
Fixpoint memcmp_eq (a b : list Byte.byte) (n : nat) : bool :=
  match n with
  | O => true
  | S n' =>
      match a, b with
      | x :: a', y :: b' => Byte.eqb x y && memcmp_eq a' b' n'
      | _, _ => false
      end
  end.

(** ** Algorithms of the C++ library used by the operators *)

(** [std::equal(first1, last1, first2)]: the second range is read as far as
    the first one extends. *)
Definition std_equal {A B : Type} (eq : A -> B -> bool) : list A -> list B -> bool :=
  fix go (x : list A) (y : list B) {struct x} : bool :=
    match x with
    | [] => true
    | a :: x' =>
        match y with
        | b :: y' => if eq a b then go x' y' else false
        | [] => false
        end
    end.

(** [std::lexicographical_compare(first1, last1, first2, last2)]. *)
Definition lexicographical_compare {A : Type} (lt : A -> A -> bool)
  : list A -> list A -> bool :=
  fix go (x y : list A) {struct x} : bool :=
    match x, y with
    | a :: x', b :: y' =>
        if lt a b then true else if lt b a then false else go x' y'
    | [], _ :: _ => true
    | _, [] => false
    end.

(** The same loop run for both argument orders at once: the first component
    is [lexicographical_compare] of [x] and [y], the second that of [y] and
    [x], given a function returning [(a < b, b < a)]. *)
Definition lexicographical_compare2 {A : Type} (lt2 : A -> A -> bool * bool)
  : list A -> list A -> bool * bool :=
  fix go (x y : list A) {struct x} : bool * bool :=
    match x, y with
    | a :: x', b :: y' =>
        let (ab, ba) := lt2 a b in
        let (r, r') := go x' y' in
        (if ab then true else if ba then false else r,
         if ba then true else if ab then false else r')
    | [], _ :: _ => (true, false)
    | _ :: _, [] => (false, true)
    | [], [] => (false, false)
    end.

(** ** namespace json *)

Module json.

(** [struct string { size_t size; const char* data; }] *)
Record string : Set := string_ { size : N; data : list ascii }.

(** A [double], as an IEEE 754 binary64 datum. *)
Definition double : Set := spec_float.

(** [struct element]: the tag and the active member of the union.  An
    [array] or [byte] (size, pointer) pair is the list of the [size] items
    it designates; a [json::object*] is the address it holds. *)
#[warnings="-register-all"]
Inductive element : Set :=
| EString (s : string)
| ENumber (number : double)
| EObject (object : Z)
| EArray (array : list element)
| ETrue
| EFalse
| ENull
| EByte (byte : list Byte.byte)
| EInt32 (int32 : Z)
| EInt64 (int64 : Z)
| EDate (date : Z)
| EUndefined.

Definition type (e : element) : json_element_type :=
  match e with
  | EString _ => JSON_STRING
  | ENumber _ => JSON_NUMBER
  | EObject _ => JSON_OBJECT
  | EArray _ => JSON_ARRAY
  | ETrue => JSON_TRUE
  | EFalse => JSON_FALSE
  | ENull => JSON_NULL
  | EByte _ => JSON_BYTE
  | EInt32 _ => JSON_INT32
  | EInt64 _ => JSON_INT64
  | EDate _ => JSON_DATE
  | EUndefined => JSON_UNDEFINED
  end.

(** Induction over elements that reaches the elements of an array. *)
Definition element_nested_ind (P : element -> Prop)
  (HString : forall s, P (EString s))
  (HNumber : forall d, P (ENumber d))
  (HObject : forall p, P (EObject p))
  (HArray : forall l, Forall P l -> P (EArray l))
  (HTrue : P ETrue) (HFalse : P EFalse) (HNull : P ENull)
  (HByte : forall b, P (EByte b))
  (HInt32 : forall i, P (EInt32 i))
  (HInt64 : forall i, P (EInt64 i))
  (HDate : forall t, P (EDate t))
  (HUndefined : P EUndefined)
  : forall e, P e :=
  fix F (e : element) : P e :=
    match e with
    | EString s => HString s
    | ENumber d => HNumber d
    | EObject p => HObject p
    | EArray l =>
        HArray l
          ((fix G (l : list element) : Forall P l :=
              match l with
              | [] => Forall_nil P
              | x :: l' => Forall_cons x (F x) (G l')
              end) l)
    | ETrue => HTrue
    | EFalse => HFalse
    | ENull => HNull
    | EByte b => HByte b
    | EInt32 i => HInt32 i
    | EInt64 i => HInt64 i
    | EDate t => HDate t
    | EUndefined => HUndefined
    end.

(** *** Comparison operators on the payloads *)

(** [operator==(const string&, const string&)] *)
Definition string_eq (s t : string) : bool :=
  (size s =? size t)%N && (0 =? strcmp (data s) (data t))%Z.

(** [operator<(const string&, const string&)] *)
Definition string_lt (s t : string) : bool :=
  (strcmp (data s) (data t) <? 0)%Z.

(** [operator==(const array&, const array&)], over the element equality. *)
Definition array_eq (eq : element -> element -> bool) (a b : list element) : bool :=
  (length a =? length b)%nat && std_equal eq a b.

(** [operator<(const array&, const array&)], over the element order. *)
Definition array_lt (lt : element -> element -> bool) (a b : list element) : bool :=
  lexicographical_compare lt a b.

(** [operator==(const byte&, const byte&)] *)
Definition byte_eq (a b : list Byte.byte) : bool :=
  (length a =? length b)%nat && memcmp_eq a b (length a).

(** [operator<(const byte&, const byte&)]: [uint8_t] items compared as
    numbers. *)
Definition byte_lt (a b : list Byte.byte) : bool :=
  lexicographical_compare (fun x y => (Byte.to_N x <? Byte.to_N y)%N) a b.

(** *** Comparison of an element with one payload *)

(** [operator==(const element&, const string&)] *)
Definition element_eq_string (e : element) (s : string) : bool :=
  match e with
  | EString t => string_eq t s
  | _ => false
  end.

(** [operator<(const element&, const string&)] *)
Definition element_lt_string (e : element) (s : string) : bool :=
  match e with
  | EString t => string_lt t s
  | _ => false
  end.

(** [operator==] and [operator<] of an element with a C string [t], which
    is wrapped by [string_(strlen(t), t)]. *)
Definition element_eq_cstr (e : element) (t : list ascii) : bool :=
  element_eq_string e (string_ (strlen t) t).

Definition element_lt_cstr (e : element) (t : list ascii) : bool :=
  element_lt_string e (string_ (strlen t) t).

(** [operator==(const element&, double)] *)
Definition element_eq_number (e : element) (number : double) : bool :=
  match e with
  | ENumber d => SFeqb d number
  | _ => false
  end.

(** [operator<(const element&, double)] *)
Definition element_lt_number (e : element) (number : double) : bool :=
  match e with
  | ENumber d => SFltb d number
  | _ => false
  end.

(** [operator==(const element&, const byte&)] *)
Definition element_eq_byte (e : element) (b : list Byte.byte) : bool :=
  match e with
  | EByte a => byte_eq a b
  | _ => false
  end.

(** [operator<(const element&, const byte&)] *)
Definition element_lt_byte (e : element) (b : list Byte.byte) : bool :=
  match e with
  | EByte a => byte_lt a b
  | _ => false
  end.

(** [operator==(const element&, bool)] *)
Definition element_eq_bool (e : element) (b : bool) : bool :=
  (b && type_eqb (type e) JSON_TRUE) || (negb b && type_eqb (type e) JSON_FALSE).

(** [operator<(const element&, bool)] *)
Definition element_lt_bool (e : element) (b : bool) : bool :=
  type_eqb (type e) JSON_FALSE && b.

(** [operator==(const element&, time_t)] *)
Definition element_eq_date (e : element) (date : Z) : bool :=
  match e with
  | EDate t => (t =? date)%Z
  | _ => false
  end.

(** [operator<(const element&, time_t)] *)
Definition element_lt_date (e : element) (date : Z) : bool :=
  match e with
  | EDate t => (t <? date)%Z
  | _ => false
  end.

(** *** Comparison of two elements *)

(** [operator==(const element&, const array&)], over the element equality
    it is mutually recursive with. *)
Definition element_eq_array (eq : element -> element -> bool)
  (e : element) (a : list element) : bool :=
  match e with
  | EArray x => array_eq eq x a
  | _ => false
  end.

(** [operator==(const element&, const element&)].  After the test on the
    tags, the member of [b] that is read is the one [a]'s tag names. *)
Fixpoint element_eq (a b : element) {struct a} : bool :=
  if negb (type_eqb (type a) (type b)) then false
  else
    match a, b with
    | EString _, EString t => element_eq_string a t
    | ENumber _, ENumber y => element_eq_number a y
    | EObject p, EObject q => (p =? q)%Z
    | EArray x, EArray y => (length x =? length y)%nat && std_equal element_eq x y
    | ETrue, _ => type_eqb (type b) JSON_TRUE
    | EFalse, _ => type_eqb (type b) JSON_FALSE
    | ENull, _ => false
    | EByte _, EByte y => element_eq_byte a y
    | EInt32 i, EInt32 j => (i =? j)%Z
    | EInt64 i, EInt64 j => (i =? j)%Z
    | EDate t, EDate u => (t =? u)%Z
    | _, _ => false
    end.

(** The body of [operator<(const element&, const element&)], over the order
    [lt] used on the elements of two arrays. *)
Definition element_lt_body (lt : element -> element -> bool) (a b : element) : bool :=
  if type_ltb (type a) (type b) then true
  else if type_ltb (type b) (type a) then false
  else
    match a, b with
    | EString _, EString t => element_lt_string a t
    | ENumber _, ENumber y => element_lt_number a y
    | EObject p, EObject q => (p <? q)%Z
    | EArray x, EArray y => array_lt lt x y
    | ETrue, _ => false
    | EFalse, _ => type_eqb (type b) JSON_TRUE
    | ENull, _ => false
    | EByte _, EByte y => element_lt_byte a y
    | EInt32 i, EInt32 j => (i <? j)%Z
    | EInt64 i, EInt64 j => (i <? j)%Z
    | EDate t, EDate u => (t <? u)%Z
    | _, _ => false
    end.

(** [lexicographical_compare] tests both [*first1 < *first2] and
    [*first2 < *first1], so the order recurses with its arguments swapped.
    [element_lt2 a b] computes [(a < b, b < a)] together, by recursion on
    [a]; [element_lt] is its first component, and [element_lt_unfold] below
    shows that it satisfies the equation of the operator. *)
Fixpoint element_lt2 (a b : element) {struct a} : bool * bool :=
  if type_ltb (type a) (type b) then (true, false)
  else if type_ltb (type b) (type a) then (false, true)
  else
    match a, b with
    | EString s, EString t => (string_lt s t, string_lt t s)
    | ENumber x, ENumber y => (SFltb x y, SFltb y x)
    | EObject p, EObject q => ((p <? q)%Z, (q <? p)%Z)
    | EArray x, EArray y => lexicographical_compare2 element_lt2 x y
    | EByte x, EByte y => (byte_lt x y, byte_lt y x)
    | EInt32 i, EInt32 j => ((i <? j)%Z, (j <? i)%Z)
    | EInt64 i, EInt64 j => ((i <? j)%Z, (j <? i)%Z)
    | EDate t, EDate u => ((t <? u)%Z, (u <? t)%Z)
    | _, _ => (false, false)
    end.

(** [operator<(const element&, const element&)] *)
Definition element_lt (a b : element) : bool := fst (element_lt2 a b).

(** *** class value

    A [value] is an element that owns its buffers; what the class adds is
    how the state of [*this] is built.  Each function below returns the
    state of [*this] after the member function of the same name, or [None]
    where the member function has no defined result: it dispatches on a tag
    that was never written, writes past the buffer it allocated, or reads
    through a reference to an object it has just destroyed or changed. *)

Definition and_then {A B : Type} (o : option A) (k : A -> option B) : option B :=
  match o with
  | Some a => k a
  | None => None
  end.

(** A function with no defined result at some item applied to each item. *)
Definition map_option {A B : Type} (f : A -> option B) : list A -> option (list B) :=
  fix go (l : list A) : option (list B) :=
    match l with
    | [] => Some []
    | x :: l' =>
        match f x with
        | Some y =>
            match go l' with
            | Some ys => Some (y :: ys)
            | None => None
            end
        | None => None
        end
    end.

(** [operator bool() const] *)
Definition operator_bool (v : element) : bool :=
  negb (type_eqb (type v) JSON_UNDEFINED).

(** [construct_string(const char* s, size_t size = 0)]: the buffer holds
    [size + 1] characters, and [strcpy] stores the characters of [s] and
    the terminator; a C string longer than [size] overruns it. *)
Definition construct_string (s : list ascii) (size : N) : option element :=
  let n := if (size =? 0)%N then strlen s else size in
  if (strlen s <=? n)%N then Some (EString (string_ n (strcpy s))) else None.

(** [construct_array(size_t n)] *)
Definition construct_array (n : nat) : element :=
  EArray (repeat EUndefined n).

(** [construct_byte(size_t n, const uint8_t* b)]: [memcpy] reads [n] bytes
    of [b]. *)
Definition construct_byte (n : nat) (b : list Byte.byte) : option element :=
  if (n <=? length b)%nat then Some (EByte (firstn n b)) else None.

(** The tags of the [default:] branch of the assignment, "non pointer
    types": every tag but String, Array and Byte. *)
Definition non_pointer_type (e : element) : bool :=
  match e with
  | EString _ | EArray _ | EByte _ => false
  | _ => true
  end.

(** [value& operator=(const element& e)] and [value& operator=(const value&)]
    on a value whose tag is written: the buffer it owns is released by
    [delete_value()] and rebuilt from [e], an array item by item through the
    same assignment to the items [construct_array] has set to Undefined. *)
Fixpoint assign (e : element) : option element :=
  match e with
  | EString s => construct_string (data s) (size s)
  | EArray a => option_map EArray (map_option assign a)
  | EByte b => construct_byte (length b) b
  | _ => Some e
  end.

(** [value(const value& v)] and [value(const json::element& e)], and the
    assignment to an item that [realloc] has added: [operator=] runs on an
    object whose tag was never written.  For a String, an Array or a Byte it
    starts with [delete_value()], which dispatches on that tag; the other
    tags are copied with their bits. *)
Definition construct_copy (e : element) : option element :=
  if non_pointer_type e then Some e else None.

(** [explicit value(double number)] *)
Definition value_of_double (number : double) : element := ENumber number.

(** [explicit value(bool b)] *)
Definition value_of_bool (b : bool) : element := if b then ETrue else EFalse.

(** [value(const char* s)] *)
Definition value_of_cstr (s : list ascii) : option element := construct_string s 0.

(** The conversion of an [int] argument to [size_t]. *)
Definition size_t_of_int (n : Z) : nat := Z.to_nat (n mod 2 ^ 64).

(** [explicit value(int n)] *)
Definition value_of_int (n : Z) : element := construct_array (size_t_of_int n).

(** Replacement of item [i] of a list that holds more than [i] items. *)
Fixpoint update {A : Type} (i : nat) (x : A) (l : list A) : list A :=
  match l, i with
  | [], _ => []
  | _ :: l', O => x :: l'
  | y :: l', S i' => y :: update i' x l'
  end.

(** [operator[](i) = e] on an array value, for an item that
    [construct_array] has set up. *)
Definition store (this : element) (i : nat) (e : element) : option element :=
  match this with
  | EArray l =>
      if (i <? length l)%nat
      then option_map (fun x => EArray (update i x l)) (assign e)
      else None
  | _ => None
  end.

(** [const json::value& operator[](size_t i) const]: item [i] of an array
    value; nothing is designated past the end, or in a value that is not an
    array. *)
Definition index (this : element) (i : nat) : option element :=
  match this with
  | EArray l => nth_error l i
  | _ => None
  end.

(** [data.array.size] of an array value. *)
Definition array_size (this : element) : nat :=
  match this with
  | EArray l => length l
  | _ => 0
  end.

(** What a [const json::element&] argument of a member function refers to:
    an object apart from [*this], or [*this] or one of its items. *)
Inductive reference : Set :=
| Separate (e : element)
| Aliased.

(** [void push_back_array(const json::element& element)].  The local
    [this_] is copy-constructed; the item added by [realloc] is assigned
    with its tag unwritten.  With an argument that is [*this] or one of its
    items, the assignment reads an object that the function has rebuilt or
    that [realloc] may have moved. *)
Definition push_back_array (this : element) (r : reference) : option element :=
  match r with
  | Aliased => None
  | Separate e =>
      if type_eqb (type this) JSON_UNDEFINED then
        store (construct_array 1) 0 e
      else if negb (type_eqb (type this) JSON_ARRAY) then
        and_then (construct_copy this) (fun this_ =>
        and_then (store (construct_array 2) 0 this_) (fun v =>
        store v 1 e))
      else
        match this with
        | EArray l => and_then (construct_copy e) (fun x => Some (EArray (l ++ [x])))
        | _ => None
        end
  end.

(** [void push_back_array(const array& array)], for an array apart from the
    buffer of [*this]. *)
Definition push_back_array_array (this : element) (a : list element) : option element :=
  if type_eqb (type this) JSON_UNDEFINED then
    assign (EArray a)
  else
    and_then
      (if negb (type_eqb (type this) JSON_ARRAY)
       then and_then (construct_copy this) (fun this_ => store (construct_array 1) 0 this_)
       else Some this)
      (fun this1 =>
         match this1 with
         | EArray l => and_then (map_option construct_copy a) (fun xs => Some (EArray (l ++ xs)))
         | _ => None
         end).

(** [json::value& push_back(const json::element&)] and
    [json::value& push_back(const json::array&)] *)
Definition push_back (this : element) (r : reference) : option element :=
  push_back_array this r.

Definition push_back_all (this : element) (a : list element) : option element :=
  push_back_array_array this a.

(** [bool value::operator==(const value& v) const] *)
Definition value_eq (this v : element) : bool := element_eq this v.

(** *** Objects *)

(** [std::string]: its characters; compared as [unsigned char]. *)
Definition std_string : Set := list ascii.

Definition std_string_lt (s t : std_string) : bool :=
  lexicographical_compare (fun c d => (uchar c <? uchar d)%Z) s t.

(** [typedef std::pair<std::string, json::value> pair] *)
Definition pair : Set := (std_string * element)%type.

(** [typedef std::map<std::string, value> object]: the entries in the order
    of their keys. *)
Definition object : Set := list pair.

(** The place of a node among the entries: a node whose key is present is
    dropped and the map is left as it is. *)
Fixpoint place (kv : pair) (o : object) : object :=
  match o with
  | [] => [kv]
  | (k, v) :: o' =>
      if std_string_lt (fst kv) k then kv :: o
      else if std_string_lt k (fst kv) then (k, v) :: place kv o'
      else o
  end.

(** [o.insert(kv)] for a [kv] of type [std::pair<std::string, json::value>]:
    the entry of the map is built from [kv] first, its value by the copy
    constructor, and then put in its place. *)
Definition insert (kv : pair) (o : object) : option object :=
  and_then (construct_copy (snd kv)) (fun v => Some (place (fst kv, v) o)).

Definition lookup (k : std_string) (o : object) : option element :=
  match find (fun kv => negb (std_string_lt k (fst kv)) && negb (std_string_lt (fst kv) k)) o with
  | Some kv => Some (snd kv)
  | None => None
  end.

(** *** The input stream *)

(** The unread characters and [failbit]. *)
Record istream : Set := mk_istream { buffer : list ascii; fail : bool }.

Definition stream_of (text : list ascii) : istream := mk_istream text false.

(** [std::isspace] in the C locale. *)
Definition isspace (c : ascii) : bool :=
  let n := N_of_ascii c in
  ((9 <=? n) && (n <=? 13) || (n =? 32))%N.

Fixpoint skipws (s : list ascii) : list ascii :=
  match s with
  | [] => []
  | c :: s' => if isspace c then skipws s' else s
  end.

(** [is >> std::skipws >> c] for a [char c] that holds [c0]: at the end of
    the input, or on a stream that has failed, [c] keeps its value. *)
Definition get (c0 : ascii) (ist : istream) : ascii * istream :=
  if fail ist then (c0, ist)
  else
    match skipws (buffer ist) with
    | [] => (c0, mk_istream [] true)
    | c :: rest => (c, mk_istream rest false)
    end.

(** [is.putback(c)] *)
Definition putback (c : ascii) (ist : istream) : istream :=
  if fail ist then ist else mk_istream (c :: buffer ist) false.

(** What a call of the reader comes to: a result and the state of the
    stream, a failed assertion, the end of the fuel, or a member function of
    [value] without a defined result. *)
Inductive result (A : Type) : Type :=
| Ok (a : A) (ist : istream)
| AssertionFailure
| OutOfFuel
| NoDefinedResult.

Arguments Ok {A} a ist.
Arguments AssertionFailure {A}.
Arguments OutOfFuel {A}.
Arguments NoDefinedResult {A}.

Definition bind {A B : Type} (r : result A) (k : A -> istream -> result B) : result B :=
  match r with
  | Ok a ist => k a ist
  | AssertionFailure => AssertionFailure
  | OutOfFuel => OutOfFuel
  | NoDefinedResult => NoDefinedResult
  end.

(** The outcome of a member function of [value] within the reader. *)
Definition defined {A : Type} (o : option A) (ist : istream) : result A :=
  match o with
  | Some a => Ok a ist
  | None => NoDefinedResult
  end.

(** [ensure (e)] with [ensure] defined as [assert]. *)
Definition ensure (e : bool * istream) : result unit :=
  let (b, ist) := e in if b then Ok tt ist else AssertionFailure.

Notation "x <- r ; 'on' ist ; k" := (bind r (fun x ist => k))
  (at level 200, r at level 100, ist name, right associativity, only parsing).

Definition is_quote (c : ascii) : bool := Ascii.eqb c "034" || Ascii.eqb c "039".

(** *** namespace parse *)

Module parse.

Section Reader.

(** The value of a [char] local that was declared without an initialiser and
    has not been assigned. *)
Variable indeterminate : ascii.

(** [is >> v.data.number] of the stream library, on the characters that
    follow the white space: the number and the characters left, or a
    failure. *)
Variable scan_double : list ascii -> option (double * list ascii).

(** [is >> v.data.number] *)
Definition get_double (ist : istream) : option double * istream :=
  if fail ist then (None, ist)
  else
    match scan_double (skipws (buffer ist)) with
    | Some (d, rest) => (Some d, mk_istream rest false)
    | None => (None, mk_istream (skipws (buffer ist)) true)
    end.

(** [bool eat(char c, std::istream& is)] *)
Definition eat (c : ascii) (ist : istream) : bool * istream :=
  let (c_, ist) := get indeterminate ist in (Ascii.eqb c c_, ist).

(** The loop of [read_string], entered with the character just read. *)
Fixpoint read_string_loop (fuel : nat) (c : ascii) (s : std_string) (ist : istream)
  : result std_string :=
  if is_quote c then Ok s ist
  else
    match fuel with
    | O => OutOfFuel
    | S fuel' =>
        let (c', ist') := get c ist in
        read_string_loop fuel' c' (s ++ [c]) ist'
    end.

(** [std::string read_string(std::istream& is)] *)
Definition read_string (fuel : nat) (ist : istream) : result std_string :=
  let (c, ist) := get indeterminate ist in
  read_string_loop fuel c [] ist.

(** [json::value read_value(std::istream& is)] and
    [json::value read_array(std::istream& is)]; the array under construction
    is the argument [v] of the loop.  A value that one of these functions
    returns is built in the object of the caller that receives it: the local
    [a] of [read_array] is the value read, an object apart from [v]. *)
Fixpoint read_value (fuel : nat) (ist : istream) {struct fuel} : result element :=
  match fuel with
  | O => OutOfFuel
  | S fuel' =>
      let v := EUndefined in
      let (c, ist) := get indeterminate ist in
      if Ascii.eqb c "]" || Ascii.eqb c "}" then Ok v ist
      else
        let (c, ist) := if Ascii.eqb c "," then get c ist else (c, ist) in
        if Ascii.eqb c "[" then
          a <- read_array fuel' EUndefined ist; on ist;
          defined (assign a) ist
        else if is_quote c then
          s <- read_string fuel' ist; on ist;
          defined (construct_string s 0) ist
        else if Ascii.eqb c "f" then
          _ <- ensure (eat "a" ist); on ist;
          _ <- ensure (eat "l" ist); on ist;
          _ <- ensure (eat "s" ist); on ist;
          _ <- ensure (eat "e" ist); on ist;
          Ok EFalse ist
        else if Ascii.eqb c "t" then
          _ <- ensure (eat "r" ist); on ist;
          _ <- ensure (eat "u" ist); on ist;
          _ <- ensure (eat "e" ist); on ist;
          Ok ETrue ist
        else if Ascii.eqb c "n" then
          _ <- ensure (eat "u" ist); on ist;
          _ <- ensure (eat "l" ist); on ist;
          _ <- ensure (eat "l" ist); on ist;
          Ok ENull ist
        else
          let ist := putback c ist in
          let (number, ist) := get_double ist in
          _ <- ensure (negb (fail ist), ist); on ist;
          match number with
          | Some d => Ok (ENumber d) ist
          | None => AssertionFailure
          end
  end

with read_array (fuel : nat) (v : element) (ist : istream) {struct fuel} : result element :=
  match fuel with
  | O => OutOfFuel
  | S fuel' =>
      a <- read_value fuel' ist; on ist;
      if operator_bool a then
        match push_back v (Separate a) with
        | Some v => read_array fuel' v ist
        | None => NoDefinedResult
        end
      else Ok v ist
  end.

(** [std::string read_key(std::istream& is)] *)
Definition read_key (fuel : nat) (ist : istream) : result std_string :=
  key <- read_string fuel ist; on ist;
  _ <- ensure (eat ":" ist); on ist;
  Ok key ist.

(** [bool read_pair(std::istream& is, std::pair<std::string,json::value>& kv)]:
    the returned flag with the state of [kv]. *)
Definition read_pair (fuel : nat) (kv : pair) (ist : istream) : result (bool * pair) :=
  let (c, ist) := get indeterminate ist in
  if Ascii.eqb c "}" then Ok (false, kv) ist
  else
    _ <- ensure (is_quote c, ist); on ist;
    key <- read_key fuel ist; on ist;
    v <- read_value fuel ist; on ist;
    v <- defined (assign v) ist; on ist;
    Ok (true, (key, v)) ist.

(** The loop of [read_members]. *)
Fixpoint read_members_loop (fuel : nat) (o : object) (kv : pair) (ist : istream)
  : result object :=
  match fuel with
  | O => OutOfFuel
  | S fuel' =>
      r <- read_pair fuel' kv ist; on ist;
      let (more, kv) := r in
      if more then
        match insert kv o with
        | Some o => read_members_loop fuel' o kv ist
        | None => NoDefinedResult
        end
      else Ok o ist
  end.

(** [object read_members(std::istream& is)] *)
Definition read_members (fuel : nat) (ist : istream) : result object :=
  read_members_loop fuel [] ([], EUndefined) ist.

(** [object read_object(std::istream& is)] *)
Definition read_object (fuel : nat) (ist : istream) : result object :=
  _ <- ensure (eat "{" ist); on ist;
  read_members fuel ist.

End Reader.

End parse.

End json.

Import json.

(** ** The writer *)

Definition text (s : String.string) : list ascii := list_ascii_of_string s.

(** [os << n] for an integer [n]: its decimal digits, with a minus sign
    when it is negative. *)
Definition write_integer (n : Z) : list ascii :=
  text (NilZero.string_of_int (Z.to_int n)).

(** The loop over the items of an array: a comma before every item but the
    first. *)
Definition write_items {A : Type} (write : A -> list ascii) : nat -> list A -> list ascii :=
  fix go (i : nat) (l : list A) {struct l} : list ascii :=
    match l with
    | [] => []
    | x :: l' => (if (i =? 0)%nat then [] else [","]) ++ write x ++ go (S i) l'
    end.

Section Writer.

(** [os << v.data.number] and [os << v.data.object] of the stream library:
    the text of a [double] and the text of an address. *)
Variable write_double : double -> list ascii.
Variable write_pointer : Z -> list ascii.

(** [std::ostream& operator<<(std::ostream& os, const json::value& v)]: the
    characters appended to [os]. *)
Fixpoint write_value (v : element) : list ascii :=
  match v with
  | EString s => ["034"] ++ strcpy (data s) ++ ["034"]
  | ENumber d => write_double d
  | EObject p => ["("] ++ write_pointer p ++ [")"]
  | EArray l => ["["] ++ write_items write_value 0 l ++ ["]"]
  | ETrue => text "true"
  | EFalse => text "false"
  | ENull => text "null"
  | EByte b => map ascii_of_byte b
  | EInt32 i => write_integer i
  | EInt64 i => write_integer i
  | EDate t => write_integer t
  | EUndefined => text "*undefined*"
  end.

(** [std::ostream& operator<<(std::ostream& os, const json::object& o)] *)
Definition write_object (o : object) : list ascii :=
  ["{"]
  ++ write_items (fun kv : pair => ["034"] ++ fst kv ++ ["034"; ":"] ++ write_value (snd kv)) 0 o
  ++ ["}"].

End Writer.

(** [std::istream& operator>>(std::istream& is, json::value& v)] *)
Definition read (indeterminate : ascii)
  (scan_double : list ascii -> option (double * list ascii))
  (fuel : nat) (ist : istream) : result element :=
  x <- parse.read_value indeterminate scan_double fuel ist; on ist;
  defined (assign x) ist.

(** ** Plain integer literals

    The part of the stream library's conversions between [double] and text
    that is independent of the platform: a run of decimal digits, with an
    optional minus sign, denotes that integer, and an integral [double] below
    a million in magnitude is written as that run of digits.  Everything else
    is left out: the scan reports it as a failure and nothing is written. *)

Definition is_digit (c : ascii) : bool :=
  let n := N_of_ascii c in ((48 <=? n) && (n <=? 57))%N.

Fixpoint scan_digits (acc : Z) (s : list ascii) : Z * list ascii :=
  match s with
  | c :: s' => if is_digit c then scan_digits (10 * acc + (uchar c - 48)) s' else (acc, s)
  | [] => (acc, [])
  end.

(** Characters the stream library would take as part of a number. *)
Definition continues_number (c : ascii) : bool :=
  existsb (Ascii.eqb c) (text "0123456789abcdefxABCDEFX+-.").

Definition ends_number (rest : list ascii) : bool :=
  match rest with
  | [] => true
  | c :: _ => negb (continues_number c)
  end.

Definition double_of_Z (n : Z) : double := binary_normalize 53 1024 n 0 false.

Definition scan_integer (s : list ascii) : option (double * list ascii) :=
  match s with
  | c :: s' =>
      if is_digit c then
        let (n, rest) := scan_digits 0 s in
        if ends_number rest then Some (double_of_Z n, rest) else None
      else if Ascii.eqb c "-" then
        match s' with
        | d :: _ =>
            if is_digit d then
              let (n, rest) := scan_digits 0 s' in
              if ends_number rest && negb (n =? 0)%Z then Some (double_of_Z (- n), rest) else None
            else None
        | [] => None
        end
      else None
  | [] => None
  end.

(** The integer an integral finite [double] holds. *)
Definition integral_value (d : double) : option Z :=
  match d with
  | S754_zero false => Some 0%Z
  | S754_finite s m e =>
      let n := (if s then Z.neg m else Z.pos m) in
      if (0 <=? e)%Z then Some (n * 2 ^ e)%Z
      else if (n mod 2 ^ (- e) =? 0)%Z then Some (n / 2 ^ (- e))%Z
      else None
  | _ => None
  end.

Definition write_integral (d : double) : list ascii :=
  match integral_value d with
  | Some n => if (Z.abs n <? 1000000)%Z then write_integer n else []
  | None => []
  end.

(** No address is written in the examples. *)
Definition no_pointer (p : Z) : list ascii := [].

(** ** Vocabulary of the properties *)

(** A character sequence without a zero byte. *)
Definition nul_free (s : list ascii) : Prop :=
  forallb (fun c => negb (Ascii.eqb c NUL)) s = true.

(** The invariant of a string payload: [size] is the length of the C string
    held in [data]. *)
Definition string_ok (s : string) : bool :=
  (size s =? N.of_nat (length (data s)))%N
  && forallb (fun c => negb (Ascii.eqb c NUL)) (data s).

(** An element all of whose strings satisfy the invariant. *)
Fixpoint well_formed (e : element) : bool :=
  match e with
  | EString s => string_ok s
  | EArray l => forallb well_formed l
  | _ => true
  end.

(** Exactly one of three conditions. *)
Definition exactly_one (p q r : bool) : bool :=
  (p && negb q && negb r) || (negb p && q && negb r) || (negb p && negb q && r).

Definition is_nan (d : double) : bool :=
  match d with
  | S754_nan => true
  | _ => false
  end.

(** A well-formed element that holds no Null, no Undefined and no NaN, at
    any depth. *)
Fixpoint ordered (e : element) : bool :=
  match e with
  | EString s => string_ok s
  | ENumber d => negb (is_nan d)
  | EArray l => forallb ordered l
  | ENull => false
  | EUndefined => false
  | _ => true
  end.


(** The tags in the order of their declaration. *)
Definition declared_order : list json_element_type :=
  [JSON_STRING; JSON_NUMBER; JSON_OBJECT; JSON_ARRAY; JSON_TRUE; JSON_FALSE;
   JSON_NULL; JSON_BYTE; JSON_INT32; JSON_INT64; JSON_DATE; JSON_UNDEFINED].

(** Built only from String, Number, Array, True, False and Null nodes. *)
Fixpoint plain_json (v : element) : bool :=
  match v with
  | EString _ | ENumber _ | ETrue | EFalse | ENull => true
  | EArray l => forallb plain_json l
  | _ => false
  end.

(** What may follow the text of a value: the end of the input, or the comma
    or bracket of the enclosing array. *)
Definition delimited (rest : list ascii) : bool :=
  match rest with
  | [] => true
  | c :: _ => Ascii.eqb c "," || Ascii.eqb c "]"
  end.

(** A character the reader passes on to the stream's number scan. *)
Definition starts_number (c : ascii) : bool := is_digit c || Ascii.eqb c "-".

(** A character a string keeps through the reader: no white space, no
    quote. *)
Definition kept_char (c : ascii) : bool := negb (isspace c) && negb (is_quote c).

(** Fuel that suffices to read the text of a value back. *)
Fixpoint weight (v : element) : nat :=
  match v with
  | EString s => S (S (length (data s)))
  | EArray l => S (S (S (length l + list_sum (map weight l))))
  | _ => 1
  end.

Section RoundTrip.

Variable scan_double : list ascii -> option (double * list ascii).
Variable write_double : double -> list ascii.

(** The text written for [d] starts like a number and is scanned back to
    [d], whatever delimiter follows. *)
Definition number_round_trips (d : double) : Prop :=
  is_nan d = false
  /\ (exists c tl, write_double d = c :: tl /\ starts_number c = true)
  /\ forall rest, delimited rest = true ->
       scan_double (write_double d ++ rest) = Some (d, rest).

(** The items the reader can append to an array that holds an item: the
    numbers that the stream library restores and the two booleans. *)
Definition appendable (v : element) : Prop :=
  match v with
  | ENumber d => number_round_trips d
  | ETrue | EFalse => True
  | _ => False
  end.

(** The values the reader restores from their text: strings without white
    space or quotes, numbers that the stream library restores, the two
    booleans, and the arrays whose first item is such a value and whose later
    items are such numbers and booleans. *)
Fixpoint round_trippable (v : element) : Prop :=
  match v with
  | EString s => string_ok s = true /\ forallb kept_char (data s) = true
  | ENumber d => number_round_trips d
  | EArray l =>
      match l with
      | [] => False
      | x :: l' => round_trippable x /\ Forall appendable l'
      end
  | ETrue | EFalse => True
  | _ => False
  end.

End RoundTrip.

(** ** Sample data *)

Definition sample_string : string := string_ 2 (text "hi").

Definition sample_value : element :=
  EArray [EString sample_string; ENumber (double_of_Z 5); ETrue;
          EArray [EFalse; ENumber (double_of_Z (-42))]].


Definition array_of_null : element := EArray [ENull].

(** The text [{"a":1,"b":[true,false]}]. *)
Definition two_members : list ascii :=
  text "{" ++ ["034"] ++ text "a" ++ ["034"] ++ text ":1,"
  ++ ["034"] ++ text "b" ++ ["034"] ++ text ":[true,false]}".

(** What is left of [two_members] once [{"a":1] has been read. *)
Definition after_first_member : list ascii :=
  text "," ++ ["034"] ++ text "b" ++ ["034"] ++ text ":[true,false]}".

(** The same two members with a blank in the place of the comma. *)
Definition two_members_blank : list ascii :=
  text "{" ++ ["034"] ++ text "a" ++ ["034"] ++ text ":1 "
  ++ ["034"] ++ text "b" ++ ["034"] ++ text ":[true,false]}".

(** The text [{"a":1 "b":true}]. *)
Definition two_scalar_members_blank : list ascii :=
  text "{" ++ ["034"] ++ text "a" ++ ["034"] ++ text ":1 "
  ++ ["034"] ++ text "b" ++ ["034"] ++ text ":true}".

(** The largest [int]. *)
Definition INT_MAX : Z := 2 ^ 31 - 1.

(** ** Further members of class value *)

(** [explicit value(time_t t)] *)
Definition value_of_date (t : Z) : element := EDate t.

(** [value(size_t size, uint8_t* data)] *)
Definition value_of_bytes (size : nat) (data : list Byte.byte) : option element :=
  construct_byte size data.

(** [v.push_back(e)] for each item [e] of a list in turn, every item an
    object apart from [v]. *)
Fixpoint push_back_each (v : element) (a : list element) : option element :=
  match a with
  | [] => Some v
  | e :: a' => and_then (push_back v (Separate e)) (fun v' => push_back_each v' a')
  end.

(** ** Further vocabulary *)

(** A character sequence without its white space. *)
Definition drop_space (s : list ascii) : list ascii :=
  filter (fun c => negb (isspace c)) s.

(** No array is empty, at any depth. *)
Fixpoint arrays_non_empty (v : element) : bool :=
  match v with
  | EArray l => negb (length l =? 0)%nat && forallb arrays_non_empty l
  | _ => true
  end.

(** The keys of the entries increase strictly. *)
Fixpoint keys_increase (o : object) : bool :=
  match o with
  | [] => true
  | kv :: o' =>
      match o' with
      | [] => true
      | kv' :: _ => std_string_lt (fst kv) (fst kv')
      end && keys_increase o'
  end.

(** Two items that [lt] orders in neither direction. *)
Definition unordered {A : Type} (lt : A -> A -> bool) (a b : A) : Prop :=
  lt a b = false /\ lt b a = false.

(** The laws of a strict weak order at [a], against items that satisfy
    [good]: [lt] is transitive and respects being unordered, with [a] as the
    least and as the greatest of the three items. *)
Definition order_laws {A : Type} (lt : A -> A -> bool) (good : A -> Prop) (a : A) : Prop :=
  forall b c, good b -> good c ->
    (lt a b = true -> lt b c = true -> lt a c = true)
    /\ (unordered lt a b -> lt b c = true -> lt a c = true)
    /\ (lt a b = true -> unordered lt b c -> lt a c = true)
    /\ (lt c b = true -> lt b a = true -> lt c a = true)
    /\ (unordered lt c b -> lt b a = true -> lt c a = true)
    /\ (lt c b = true -> unordered lt b a -> lt c a = true).

(** What the reader builds: String, Number, Array, True, False and Null
    nodes only, strings that satisfy their invariant, and no empty array. *)
Definition read_result_ok (v : element) : bool :=
  plain_json v && well_formed v && arrays_non_empty v.

(** No Null, no Undefined and no NaN, at any depth. *)
Fixpoint free_of_null_and_nan (e : element) : bool :=
  match e with
  | ENumber d => negb (is_nan d)
  | EArray l => forallb free_of_null_and_nan l
  | ENull | EUndefined => false
  | _ => true
  end.

(** The three keywords of the reader. *)
Definition keywords : list (list ascii) := [text "true"; text "false"; text "null"].

(** ** Facts about C strings *)

Lemma uchar_inj (c d : ascii) : uchar c = uchar d -> c = d.
Proof.
  unfold uchar. intro H. apply N2Z.inj in H.
  rewrite <- (ascii_N_embedding c), <- (ascii_N_embedding d). now rewrite H.
Qed.

Lemma uchar_nonneg (c : ascii) : (0 <= uchar c)%Z.
Proof. unfold uchar. lia. Qed.

Lemma uchar_NUL (c : ascii) : uchar c = 0%Z -> c = NUL.
Proof. intro H. apply uchar_inj. rewrite H. reflexivity. Qed.

Lemma strcmp_antisym (s t : list ascii) : strcmp t s = (- strcmp s t)%Z.
Proof.
  revert t. induction s as [|c s IH]; intros [|d t]; simpl; try lia.
  rewrite (Ascii.eqb_sym d c).
  destruct (Ascii.eqb c d) eqn:E.
  - apply Ascii.eqb_eq in E. subst d.
    destruct (Ascii.eqb c NUL); [reflexivity | apply IH].
  - lia.
Qed.

Lemma strcmp_refl (s : list ascii) : strcmp s s = 0%Z.
Proof.
  induction s as [|c s IH]; simpl; [reflexivity|].
  rewrite Ascii.eqb_refl. now destruct (Ascii.eqb c NUL).
Qed.

Lemma nul_free_cons (c : ascii) (s : list ascii) :
  nul_free (c :: s) -> Ascii.eqb c NUL = false /\ nul_free s.
Proof.
  unfold nul_free. simpl. intro H. apply andb_true_iff in H as [H1 H2].
  split; [now apply negb_true_iff|assumption].
Qed.

Lemma nul_free_uchar (c : ascii) : Ascii.eqb c NUL = false -> (0 < uchar c)%Z.
Proof.
  intro H. pose proof (uchar_nonneg c).
  destruct (Z.eq_dec (uchar c) 0) as [E|E]; [|lia].
  apply uchar_NUL in E. subst c. discriminate.
Qed.

Lemma strcmp_zero (s t : list ascii) :
  nul_free s -> nul_free t -> strcmp s t = 0%Z -> s = t.
Proof.
  revert t. induction s as [|c s IH]; intros [|d t] Hs Ht; simpl; intro H.
  - reflexivity.
  - apply nul_free_cons in Ht as [Hd _]. apply nul_free_uchar in Hd. lia.
  - apply nul_free_cons in Hs as [Hc _]. apply nul_free_uchar in Hc. lia.
  - apply nul_free_cons in Hs as [Hc Hs]. apply nul_free_cons in Ht as [Hd Ht].
    destruct (Ascii.eqb c d) eqn:E.
    + apply Ascii.eqb_eq in E. subst d. rewrite Hc in H.
      f_equal. now apply IH.
    + exfalso. apply Ascii.eqb_neq in E. apply E, uchar_inj. lia.
Qed.


(** ** Facts about the comparison of doubles *)

Lemma SFcompare_swap (x y : double) :
  SFcompare y x = option_map CompOpp (SFcompare x y).
Proof.
  destruct x as [s1| s1 | | s1 m1 e1], y as [s2| s2 | | s2 m2 e2]; simpl;
    try reflexivity;
    try (destruct s1; reflexivity); try (destruct s2; reflexivity);
    try (destruct s1, s2; reflexivity).
  destruct s1, s2; simpl; try reflexivity;
    rewrite (Z.compare_antisym e1 e2);
    destruct (e1 ?= e2)%Z; simpl; try reflexivity;
    pose proof (Pos.compare_cont_antisym m1 m2 Eq) as H; simpl in H; rewrite <- H;
    now destruct (Pos.compare_cont Eq m1 m2).
Qed.

Lemma SFcompare_defined (x y : double) :
  is_nan x = false -> is_nan y = false -> exists c, SFcompare x y = Some c.
Proof.
  destruct x, y; simpl; try discriminate; intros _ _; eexists; reflexivity.
Qed.

Lemma double_trichotomy (x y : double) :
  is_nan x = false -> is_nan y = false ->
  exactly_one (SFltb x y) (SFltb y x) (SFeqb x y) = true.
Proof.
  intros Hx Hy. unfold SFltb, SFeqb. rewrite (SFcompare_swap x y).
  destruct (SFcompare_defined x y Hx Hy) as [c ->]. now destruct c.
Qed.

(** ** Facts about the two list algorithms *)

Lemma memcmp_eq_std_equal (a b : list Byte.byte) :
  memcmp_eq a b (length a) = std_equal Byte.eqb a b.
Proof.
  revert b. induction a as [|x a IH]; intros [|y b]; simpl; try reflexivity.
  rewrite IH. now destruct (Byte.eqb x y).
Qed.

Lemma lexicographical_trichotomy {A : Type} (lt eq : A -> A -> bool) (x y : list A) :
  (forall a, In a x -> forall b, In b y ->
     exactly_one (lt a b) (lt b a) (eq a b) = true) ->
  exactly_one (lexicographical_compare lt x y) (lexicographical_compare lt y x)
    ((length x =? length y)%nat && std_equal eq x y) = true.
Proof.
  revert y. induction x as [|a x IH]; intros [|b y] H; simpl; try reflexivity.
  assert (Hab := H a (or_introl eq_refl) b (or_introl eq_refl)).
  assert (IH' := IH y (fun a' Ha b' Hb => H a' (or_intror Ha) b' (or_intror Hb))).
  destruct (lt a b), (lt b a), (eq a b); try discriminate Hab;
    rewrite ?andb_false_r; try reflexivity.
  exact IH'.
Qed.

Lemma lexicographical_compare2_swap {A : Type} (lt2 : A -> A -> bool * bool) (x y : list A) :
  (forall a, In a x -> forall b, lt2 b a = (snd (lt2 a b), fst (lt2 a b))) ->
  lexicographical_compare2 lt2 y x
  = (snd (lexicographical_compare2 lt2 x y), fst (lexicographical_compare2 lt2 x y)).
Proof.
  revert y. induction x as [|a x IH]; intros [|b y] H; simpl; try reflexivity.
  rewrite (H a (or_introl eq_refl) b).
  rewrite (IH y (fun a' Ha => H a' (or_intror Ha))).
  destruct (lt2 a b) as [ab ba]. destruct (lexicographical_compare2 lt2 x y) as [r r'].
  reflexivity.
Qed.

Lemma lexicographical_compare2_fst {A : Type} (lt2 : A -> A -> bool * bool) (x y : list A) :
  (forall a b, snd (lt2 a b) = fst (lt2 b a)) ->
  fst (lexicographical_compare2 lt2 x y)
  = lexicographical_compare (fun a b => fst (lt2 a b)) x y.
Proof.
  intro H. revert y. induction x as [|a x IH]; intros [|b y]; simpl; try reflexivity.
  rewrite <- (H a b), <- (IH y).
  destruct (lt2 a b) as [ab ba]. destruct (lexicographical_compare2 lt2 x y) as [r r'].
  reflexivity.
Qed.

(** ** The order of elements *)

Lemma element_lt2_swap (a b : element) :
  element_lt2 b a = (snd (element_lt2 a b), fst (element_lt2 a b)).
Proof.
  revert b. induction a as [s|d|p|l IH| | | |x|i|i|t|] using element_nested_ind;
    intros [s'|d'|p'|l'| | | |x'|i'|i'|t'|]; try reflexivity.
  cbn -[lexicographical_compare2].
  apply lexicographical_compare2_swap.
  intros a Ha b. rewrite Forall_forall in IH. exact (IH a Ha b).
Qed.

(** The order satisfies the equation of the operator in the source. *)
Lemma element_lt_unfold (a b : element) :
  element_lt a b = element_lt_body element_lt a b.
Proof.
  destruct a, b; try reflexivity.
  unfold element_lt at 1. cbn -[lexicographical_compare2].
  apply lexicographical_compare2_fst.
  intros a b. now rewrite (element_lt2_swap a b).
Qed.

Lemma type_ltb_irrefl (t : json_element_type) : type_ltb t t = false.
Proof. unfold type_ltb. apply Z.ltb_irrefl. Qed.

Lemma ordinal_inj (t u : json_element_type) : ordinal t = ordinal u -> t = u.
Proof. destruct t, u; simpl; intro H; try reflexivity; discriminate H. Qed.

Lemma type_eqb_eq (t u : json_element_type) : type_eqb t u = true <-> t = u.
Proof.
  unfold type_eqb. rewrite Z.eqb_eq. split; [apply ordinal_inj | now intros ->].
Qed.

Lemma element_eq_diff (a b : element) : type a <> type b -> element_eq a b = false.
Proof.
  intro H. destruct (type_eqb (type a) (type b)) eqn:E.
  - now apply type_eqb_eq in E.
  - destruct a; simpl in *; rewrite ?E; reflexivity.
Qed.

Lemma element_lt_diff (a b : element) :
  type a <> type b -> element_lt a b = type_ltb (type a) (type b).
Proof.
  intro H. rewrite element_lt_unfold. unfold element_lt_body.
  destruct (type_ltb (type a) (type b)) eqn:E1; [reflexivity|].
  destruct (type_ltb (type b) (type a)) eqn:E2; [reflexivity|].
  exfalso. apply H, ordinal_inj. unfold type_ltb in *.
  apply Z.ltb_ge in E1, E2. lia.
Qed.

Lemma string_ok_inv (s : string) :
  string_ok s = true ->
  size s = N.of_nat (length (data s)) /\ nul_free (data s).
Proof.
  unfold string_ok. intro H. apply andb_true_iff in H as [H1 H2].
  split; [now apply N.eqb_eq | exact H2].
Qed.

Lemma string_trichotomy (s t : string) :
  string_ok s = true -> string_ok t = true ->
  exactly_one (string_lt s t) (string_lt t s) (string_eq s t) = true.
Proof.
  intros Hs Ht. apply string_ok_inv in Hs as [Hs1 Hs2], Ht as [Ht1 Ht2].
  unfold string_lt, string_eq. rewrite (strcmp_antisym (data s) (data t)).
  destruct (Z.lt_trichotomy (strcmp (data s) (data t)) 0) as [H|[H|H]].
  - replace (strcmp (data s) (data t) <? 0)%Z with true by (symmetry; apply Z.ltb_lt; lia).
    replace (- strcmp (data s) (data t) <? 0)%Z with false by (symmetry; apply Z.ltb_ge; lia).
    replace (0 =? strcmp (data s) (data t))%Z with false by (symmetry; apply Z.eqb_neq; lia).
    now rewrite andb_false_r.
  - rewrite H. simpl. apply strcmp_zero in H; try assumption.
    rewrite Hs1, Ht1, H, N.eqb_refl. reflexivity.
  - replace (strcmp (data s) (data t) <? 0)%Z with false by (symmetry; apply Z.ltb_ge; lia).
    replace (- strcmp (data s) (data t) <? 0)%Z with true by (symmetry; apply Z.ltb_lt; lia).
    replace (0 =? strcmp (data s) (data t))%Z with false by (symmetry; apply Z.eqb_neq; lia).
    now rewrite andb_false_r.
Qed.

Lemma Z_trichotomy (i j : Z) :
  exactly_one (i <? j)%Z (j <? i)%Z (i =? j)%Z = true.
Proof.
  destruct (Z.lt_trichotomy i j) as [H|[H|H]].
  - replace (i <? j)%Z with true by (symmetry; apply Z.ltb_lt; lia).
    replace (j <? i)%Z with false by (symmetry; apply Z.ltb_ge; lia).
    replace (i =? j)%Z with false by (symmetry; apply Z.eqb_neq; lia).
    reflexivity.
  - subst. now rewrite Z.ltb_irrefl, Z.eqb_refl.
  - replace (i <? j)%Z with false by (symmetry; apply Z.ltb_ge; lia).
    replace (j <? i)%Z with true by (symmetry; apply Z.ltb_lt; lia).
    replace (i =? j)%Z with false by (symmetry; apply Z.eqb_neq; lia).
    reflexivity.
Qed.

Lemma byte_item_trichotomy (x y : Byte.byte) :
  exactly_one (Byte.to_N x <? Byte.to_N y)%N (Byte.to_N y <? Byte.to_N x)%N (Byte.eqb x y) = true.
Proof.
  destruct (Byte.eqb x y) eqn:E.
  - apply Byte.byte_dec_bl in E. subst. now rewrite N.ltb_irrefl.
  - assert (Byte.to_N x <> Byte.to_N y) as Hne.
    { intro H. apply Byte.eqb_false in E. apply E.
      pose proof (Byte.of_to_N x) as Hx. pose proof (Byte.of_to_N y) as Hy.
      rewrite H in Hx. congruence. }
    destruct (N.lt_trichotomy (Byte.to_N x) (Byte.to_N y)) as [H|[H|H]]; [|contradiction|].
    + replace (Byte.to_N x <? Byte.to_N y)%N with true by (symmetry; apply N.ltb_lt; lia).
      replace (Byte.to_N y <? Byte.to_N x)%N with false by (symmetry; apply N.ltb_ge; lia).
      reflexivity.
    + replace (Byte.to_N x <? Byte.to_N y)%N with false by (symmetry; apply N.ltb_ge; lia).
      replace (Byte.to_N y <? Byte.to_N x)%N with true by (symmetry; apply N.ltb_lt; lia).
      reflexivity.
Qed.

Lemma byte_trichotomy (a b : list Byte.byte) :
  exactly_one (byte_lt a b) (byte_lt b a) (byte_eq a b) = true.
Proof.
  unfold byte_lt, byte_eq. rewrite memcmp_eq_std_equal.
  apply lexicographical_trichotomy. intros x _ y _. apply byte_item_trichotomy.
Qed.

(** On elements free of Null, Undefined and NaN, exactly one of [a < b],
    [b < a] and [a == b] holds, whatever the tags. *)
Lemma element_trichotomy (a : element) :
  ordered a = true -> forall b, ordered b = true ->
  exactly_one (element_lt a b) (element_lt b a) (element_eq a b) = true.
Proof.
  induction a as [s|d|p|l IH| | | |x|i|i|t|] using element_nested_ind;
    intros Ha b Hb;
    destruct b as [s'|d'|p'|l'| | | |x'|i'|i'|t'|];
    try discriminate Ha; try discriminate Hb; try reflexivity.
  - simpl in Ha, Hb. exact (string_trichotomy s s' Ha Hb).
  - simpl in Ha, Hb. apply negb_true_iff in Ha, Hb.
    exact (double_trichotomy d d' Ha Hb).
  - exact (Z_trichotomy p p').
  - rewrite (element_lt_unfold (EArray l)), (element_lt_unfold (EArray l')).
    cbn [element_lt_body type type_ltb ordinal Z.ltb Z.compare array_lt].
    cbn [element_eq type type_eqb ordinal Z.eqb negb].
    apply lexicographical_trichotomy.
    simpl in Ha, Hb. rewrite forallb_forall in Ha, Hb. rewrite Forall_forall in IH.
    intros a Hin b Hin'. apply IH; auto.
  - exact (byte_trichotomy x x').
  - exact (Z_trichotomy i i').
  - exact (Z_trichotomy i i').
  - exact (Z_trichotomy t t').
Qed.

(** ** Copies *)

Lemma strcpy_nul_free (s : list ascii) : nul_free s -> strcpy s = s.
Proof.
  induction s as [|c s IH]; intro H; simpl; [reflexivity|].
  apply nul_free_cons in H as [Hc Hs]. rewrite Hc. f_equal. now apply IH.
Qed.

Lemma strlen_nul_free (s : list ascii) : nul_free s -> strlen s = N.of_nat (length s).
Proof.
  induction s as [|c s IH]; intro H; [reflexivity|].
  apply nul_free_cons in H as [Hc Hs]. cbn [strlen length]. rewrite Hc, (IH Hs). lia.
Qed.

Lemma construct_string_ok (s : string) :
  string_ok s = true -> construct_string (data s) (size s) = Some (EString s).
Proof.
  intro H. apply string_ok_inv in H as [H1 H2]. unfold construct_string.
  rewrite (strcpy_nul_free _ H2), (strlen_nul_free _ H2), <- H1.
  destruct s as [n d]; simpl in *.
  destruct (n =? 0)%N eqn:E; rewrite N.leb_refl; [|reflexivity].
  apply N.eqb_eq in E. now subst n.
Qed.

Lemma construct_byte_all (b : list Byte.byte) :
  construct_byte (length b) b = Some (EByte b).
Proof. unfold construct_byte. now rewrite Nat.leb_refl, firstn_all. Qed.

Lemma map_option_Some {A B : Type} (f : A -> option B) (l : list A) (l' : list B) :
  map_option f l = Some l' <-> Forall2 (fun x y => f x = Some y) l l'.
Proof.
  revert l'. induction l as [|x l IH]; intro l'; simpl.
  - split; intro H; [injection H as <-; constructor | now inversion H].
  - destruct (f x) as [y|] eqn:E.
    + destruct (map_option f l) as [ys|] eqn:E'.
      * split; intro H.
        -- injection H as <-. constructor; [exact E | now apply IH].
        -- inversion H as [|? y' ? ys' Hy Hys]; subst.
           apply IH in Hys. congruence.
      * split; intro H; [discriminate H|].
        inversion H as [|? y' ? ys' Hy Hys]; subst. apply IH in Hys. discriminate Hys.
    + split; intro H; [discriminate H|].
      inversion H as [|? y' ? ys' Hy Hys]; subst. congruence.
Qed.

Lemma map_option_id {A : Type} (f : A -> option A) (l : list A) :
  Forall (fun x => f x = Some x) l -> map_option f l = Some l.
Proof.
  intro H. apply map_option_Some. induction H; constructor; auto.
Qed.

(** Assignment from a well-formed element rebuilds the same element. *)
Lemma assign_well_formed (e : element) : well_formed e = true -> assign e = Some e.
Proof.
  induction e as [s|d|p|l IH| | | |x|i|i|t|] using element_nested_ind;
    intro H; try reflexivity.
  - now apply construct_string_ok.
  - cbn [assign]. rewrite (map_option_id assign l); [reflexivity|].
    simpl in H. rewrite forallb_forall in H. rewrite Forall_forall in IH |- *.
    intros x Hx. apply IH; auto.
  - apply construct_byte_all.
Qed.

Lemma non_pointer_type_well_formed (e : element) :
  non_pointer_type e = true -> well_formed e = true.
Proof. now destruct e. Qed.

Lemma assign_non_pointer_type (e : element) :
  non_pointer_type e = true -> assign e = Some e.
Proof. now destruct e. Qed.

Lemma construct_copy_Some (e x : element) :
  construct_copy e = Some x <-> non_pointer_type e = true /\ x = e.
Proof.
  unfold construct_copy. destruct (non_pointer_type e); split.
  - intro H. injection H as <-. now split.
  - now intros [_ ->].
  - discriminate.
  - now intros [H _].
Qed.

Lemma construct_copies (a : list element) :
  forallb non_pointer_type a = true -> map_option construct_copy a = Some a.
Proof.
  intro H. apply map_option_id. rewrite forallb_forall in H. apply Forall_forall.
  intros x Hx. unfold construct_copy. now rewrite (H x Hx).
Qed.

(** ** The reader on the text of a value *)

Lemma get_char (c0 c : ascii) (rest : list ascii) :
  isspace c = false -> get c0 (stream_of (c :: rest)) = (c, stream_of rest).
Proof. intro H. unfold get, stream_of. simpl. now rewrite H. Qed.

Lemma kept_char_inv (c : ascii) :
  kept_char c = true -> isspace c = false /\ is_quote c = false.
Proof.
  unfold kept_char. intro H. apply andb_true_iff in H as [H1 H2].
  now rewrite negb_true_iff in H1, H2.
Qed.

Lemma starts_number_inv (c : ascii) :
  starts_number c = true ->
  isspace c = false /\ is_quote c = false
  /\ Ascii.eqb c "]" = false /\ Ascii.eqb c "}" = false
  /\ Ascii.eqb c "," = false /\ Ascii.eqb c "[" = false
  /\ Ascii.eqb c "f" = false /\ Ascii.eqb c "t" = false
  /\ Ascii.eqb c "n" = false.
Proof.
  destruct c as [[] [] [] [] [] [] [] []]; intro H; try discriminate H;
    repeat split; reflexivity.
Qed.

Lemma delimited_items {A : Type} (w : A -> list ascii) (i : nat) (l : list A) (rest : list ascii) :
  delimited (write_items w (S i) l ++ "]" :: rest) = true.
Proof. destruct l; reflexivity. Qed.

Section ReaderFacts.

Variable indeterminate : ascii.
Variable scan_double : list ascii -> option (double * list ascii).
Variable write_double : double -> list ascii.
Variable write_pointer : Z -> list ascii.

Local Abbreviation read_value := (parse.read_value indeterminate scan_double).
Local Abbreviation read_array := (parse.read_array indeterminate scan_double).
Local Abbreviation read_string := (parse.read_string indeterminate).
Local Abbreviation read_string_loop := (parse.read_string_loop).
Local Abbreviation write := (write_value write_double write_pointer).
Local Abbreviation rt := (round_trippable scan_double write_double).

Lemma read_array_S (fuel : nat) (v : element) (ist : istream) :
  read_array (S fuel) v ist
  = bind (read_value fuel ist)
      (fun a ist => if operator_bool a then
                      match push_back v (Separate a) with
                      | Some v => read_array fuel v ist
                      | None => NoDefinedResult
                      end
                    else Ok v ist).
Proof. reflexivity. Qed.

Lemma read_string_loop_quote (fuel : nat) (c : ascii) (s : list ascii) (ist : istream) :
  is_quote c = true -> read_string_loop fuel c s ist = Ok s ist.
Proof. intro H. destruct fuel; cbn [parse.read_string_loop]; now rewrite H. Qed.

Lemma read_string_loop_kept (d : list ascii) :
  forall (acc : list ascii) (c : ascii) (fuel : nat) (rest : list ascii),
  kept_char c = true -> forallb kept_char d = true -> length d < fuel ->
  read_string_loop fuel c acc (stream_of (d ++ "034" :: rest))
  = Ok (acc ++ c :: d) (stream_of rest).
Proof.
  induction d as [|c' d IH]; intros acc c fuel rest Hc Hd Hfuel;
    destruct fuel as [|fuel]; try (simpl in Hfuel; lia);
    apply kept_char_inv in Hc as Hc'; destruct Hc' as [_ Hq];
    cbn [parse.read_string_loop]; rewrite Hq.
  - cbn [app]. rewrite get_char by reflexivity.
    destruct fuel; reflexivity.
  - simpl in Hd. apply andb_true_iff in Hd as [Hc1 Hd].
    cbn [app]. rewrite get_char by (now apply kept_char_inv in Hc1).
    rewrite IH; try assumption; [|simpl in Hfuel; lia].
    now rewrite <- app_assoc.
Qed.

Lemma read_string_kept (d : list ascii) (fuel : nat) (rest : list ascii) :
  forallb kept_char d = true -> length d <= fuel ->
  read_string fuel (stream_of (d ++ "034" :: rest)) = Ok d (stream_of rest).
Proof.
  intros Hd Hfuel. unfold parse.read_string.
  destruct d as [|c d].
  - cbn [app]. rewrite get_char by reflexivity. destruct fuel; reflexivity.
  - simpl in Hd. apply andb_true_iff in Hd as [Hc Hd].
    cbn [app]. rewrite get_char by (now apply kept_char_inv in Hc).
    apply (read_string_loop_kept d [] c); assumption.
Qed.


Lemma read_value_S (fuel : nat) (ist : istream) :
  read_value (S fuel) ist
  = let (c, ist) := get indeterminate ist in
    if Ascii.eqb c "]" || Ascii.eqb c "}" then Ok EUndefined ist
    else
      let (c, ist) := if Ascii.eqb c "," then get c ist else (c, ist) in
      if Ascii.eqb c "[" then
        bind (read_array fuel EUndefined ist) (fun a ist => defined (assign a) ist)
      else if is_quote c then
        bind (read_string fuel ist) (fun s ist => defined (construct_string s 0) ist)
      else if Ascii.eqb c "f" then
        bind (ensure (parse.eat indeterminate "a" ist)) (fun _ ist =>
        bind (ensure (parse.eat indeterminate "l" ist)) (fun _ ist =>
        bind (ensure (parse.eat indeterminate "s" ist)) (fun _ ist =>
        bind (ensure (parse.eat indeterminate "e" ist)) (fun _ ist =>
        Ok EFalse ist))))
      else if Ascii.eqb c "t" then
        bind (ensure (parse.eat indeterminate "r" ist)) (fun _ ist =>
        bind (ensure (parse.eat indeterminate "u" ist)) (fun _ ist =>
        bind (ensure (parse.eat indeterminate "e" ist)) (fun _ ist =>
        Ok ETrue ist)))
      else if Ascii.eqb c "n" then
        bind (ensure (parse.eat indeterminate "u" ist)) (fun _ ist =>
        bind (ensure (parse.eat indeterminate "l" ist)) (fun _ ist =>
        bind (ensure (parse.eat indeterminate "l" ist)) (fun _ ist =>
        Ok ENull ist)))
      else
        let ist := putback c ist in
        let (number, ist) := parse.get_double scan_double ist in
        bind (ensure (negb (fail ist), ist)) (fun _ ist =>
        match number with
        | Some d => Ok (ENumber d) ist
        | None => AssertionFailure
        end).
Proof. reflexivity. Qed.

(** A value whose text starts with [c] is reached by the reader whether or
    not a comma precedes it. *)
Lemma read_value_lead (fuel : nat) (lead : list ascii) (c : ascii) (body : list ascii) :
  lead = [] \/ lead = [","] ->
  isspace c = false -> Ascii.eqb c "]" = false -> Ascii.eqb c "}" = false ->
  Ascii.eqb c "," = false ->
  read_value (S fuel) (stream_of (lead ++ c :: body))
  = read_value (S fuel) (stream_of (c :: body)).
Proof.
  intros [-> | ->] Hs H1 H2 H3; [reflexivity|].
  rewrite !read_value_S. cbn [app].
  rewrite (get_char indeterminate ",") by reflexivity.
  cbn [Ascii.eqb Bool.eqb orb].
  rewrite !get_char by assumption. rewrite H1, H2, H3. reflexivity.
Qed.

Lemma read_value_keyword (fuel : nat) (lead rest : list ascii) :
  lead = [] \/ lead = [","] ->
  read_value (S fuel) (stream_of (lead ++ text "true" ++ rest)) = Ok ETrue (stream_of rest)
  /\ read_value (S fuel) (stream_of (lead ++ text "false" ++ rest)) = Ok EFalse (stream_of rest).
Proof. intros [-> | ->]; split; reflexivity. Qed.

Lemma read_value_string (fuel : nat) (lead d rest : list ascii) :
  lead = [] \/ lead = [","] ->
  forallb kept_char d = true -> length d <= fuel ->
  read_value (S fuel) (stream_of (lead ++ ["034"] ++ d ++ ["034"] ++ rest))
  = defined (construct_string d 0) (stream_of rest).
Proof.
  intros Hlead Hd Hfuel. cbn [app].
  rewrite read_value_lead by (assumption || reflexivity).
  rewrite read_value_S, get_char by reflexivity.
  cbn [Ascii.eqb Bool.eqb orb is_quote].
  now rewrite read_string_kept.
Qed.

Lemma read_value_scan (fuel : nat) (c : ascii) (body rest : list ascii) (d : double) :
  starts_number c = true -> scan_double (c :: body) = Some (d, rest) ->
  read_value (S fuel) (stream_of (c :: body)) = Ok (ENumber d) (stream_of rest).
Proof.
  intros Hc Hscan.
  apply starts_number_inv in Hc as (Hs & Hq & H1 & H2 & H3 & H4 & H5 & H6 & H7).
  rewrite read_value_S, get_char by assumption.
  rewrite H1, H2, H3, H4, Hq, H5, H6, H7. cbn [orb].
  unfold putback, parse.get_double, stream_of. cbn [fail buffer skipws].
  rewrite Hs, Hscan. reflexivity.
Qed.

Lemma read_value_number (fuel : nat) (lead rest : list ascii) (d : double) :
  lead = [] \/ lead = [","] ->
  number_round_trips scan_double write_double d -> delimited rest = true ->
  read_value (S fuel) (stream_of (lead ++ write_double d ++ rest))
  = Ok (ENumber d) (stream_of rest).
Proof.
  intros Hlead (_ & (c & tl & Hw & Hc) & Hscan) Hrest.
  specialize (Hscan rest Hrest). rewrite Hw in *. cbn [app] in *.
  apply starts_number_inv in Hc as Hc'.
  destruct Hc' as (Hs & _ & H1 & H2 & H3 & _).
  rewrite read_value_lead by assumption.
  now apply read_value_scan.
Qed.


Lemma appendable_rt (v : element) :
  appendable scan_double write_double v -> rt v /\ non_pointer_type v = true.
Proof. destruct v; intro H; try (destruct H; fail); split; (exact H || reflexivity). Qed.

Lemma rt_items (l : list element) : rt (EArray l) -> l <> [] /\ Forall rt l.
Proof.
  destruct l as [|x l]; [intros []|]. intros [Hx Hl]. split; [discriminate|].
  constructor; [exact Hx|]. rewrite Forall_forall in *.
  intros a Ha. now apply appendable_rt, Hl.
Qed.

Lemma rt_well_formed (v : element) : rt v -> well_formed v = true.
Proof.
  induction v as [s|d|p|l IH| | | |x|i|i|t|] using element_nested_ind;
    intro H; try reflexivity.
  - exact (proj1 H).
  - apply rt_items in H as [_ H]. cbn [well_formed]. apply forallb_forall.
    rewrite Forall_forall in IH, H. intros x Hx. exact (IH x Hx (H x Hx)).
Qed.

Lemma rt_operator_bool (v : element) : rt v -> operator_bool v = true.
Proof. destruct v; try reflexivity. intros []. Qed.




(** The first append to the array under construction. *)
Lemma push_back_undefined (e : element) :
  push_back EUndefined (Separate e) = option_map (fun x => EArray [x]) (assign e).
Proof. reflexivity. Qed.

(** The later appends. *)
Lemma push_back_array_item (l : list element) (e : element) :
  push_back (EArray l) (Separate e)
  = if non_pointer_type e then Some (EArray (l ++ [e])) else None.
Proof.
  unfold push_back, push_back_array, construct_copy. cbn.
  now destruct (non_pointer_type e).
Qed.

Lemma read_array_appendable (l : list element) :
  Forall (appendable scan_double write_double) l ->
  forall (i : nat) (l0 : list element) (fuel : nat) (rest : list ascii),
  length l + 2 <= fuel ->
  read_array fuel (EArray l0) (stream_of (write_items write i l ++ "]" :: rest))
  = Ok (EArray (l0 ++ l)) (stream_of rest).
Proof.
  induction 1 as [|x l Hx _ IH]; intros i l0 fuel rest Hfuel.
  - destruct fuel as [|[|fuel]]; try (simpl in Hfuel; lia).
    rewrite app_nil_r. reflexivity.
  - destruct fuel as [|[|fuel]]; try (simpl in Hfuel; lia).
    cbn [length] in Hfuel.
    rewrite read_array_S. cbn [write_items]. rewrite <- !app_assoc.
    assert (lead : (if (i =? 0)%nat then [] else [","]) = []
                   \/ (if (i =? 0)%nat then [] else [","]) = [","])
      by (destruct i; [left | right]; reflexivity).
    assert (read_value (S fuel)
              (stream_of ((if (i =? 0)%nat then [] else [","])
                          ++ write x ++ write_items write (S i) l ++ "]" :: rest))
            = Ok x (stream_of (write_items write (S i) l ++ "]" :: rest))) as ->.
    { destruct x; try (destruct Hx; fail).
      - cbn [write_value]. apply read_value_number; [exact lead | exact Hx|].
        apply delimited_items.
      - apply (read_value_keyword fuel _ _ lead).
      - apply (read_value_keyword fuel _ _ lead). }
    cbn [bind]. destruct (appendable_rt x Hx) as [Hrt Hnp].
    rewrite (rt_operator_bool x Hrt), push_back_array_item, Hnp.
    rewrite IH by lia. now rewrite <- app_assoc.
Qed.

(** The reader restores a round-trippable value from its text, in front of
    any delimiter and behind an optional comma. *)
Lemma read_value_write (v : element) :
  rt v ->
  forall lead rest fuel, lead = [] \/ lead = [","] -> delimited rest = true ->
  weight v <= fuel ->
  read_value fuel (stream_of (lead ++ write v ++ rest)) = Ok v (stream_of rest).
Proof.
  induction v as [s|d|p|l IH| | | |x|i|i|t|] using element_nested_ind;
    intros Hrt lead rest fuel Hlead Hrest Hfuel;
    try (destruct Hrt; fail);
    (destruct fuel as [|fuel]; [cbn in Hfuel; lia|]).
  - destruct Hrt as [Hok Hkept]. cbn [write_value].
    destruct (string_ok_inv s Hok) as [Hsize Hnul].
    rewrite (strcpy_nul_free _ Hnul), <- !app_assoc.
    rewrite read_value_string; try assumption; [|cbn in Hfuel; lia].
    replace (construct_string (data s) 0) with (Some (EString s)); [reflexivity|].
    unfold construct_string. cbn [N.eqb].
    rewrite N.leb_refl, (strcpy_nul_free _ Hnul), (strlen_nul_free _ Hnul), <- Hsize.
    now destruct s.
  - cbn [write_value]. now apply read_value_number.
  - pose proof (rt_well_formed _ Hrt) as Hwf.
    destruct l as [|x l]; [destruct Hrt|]. destruct Hrt as [Hx Hl].
    inversion IH as [|? ? IHx _]; subst.
    cbn [write_value]. rewrite <- !app_assoc. cbn [app].
    rewrite read_value_lead by (assumption || reflexivity).
    rewrite read_value_S, get_char by reflexivity.
    cbn [Ascii.eqb Bool.eqb orb].
    change (weight (EArray (x :: l)))
      with (S (S (S (length (x :: l) + (weight x + list_sum (map weight l)))))) in Hfuel.
    cbn [length] in Hfuel.
    destruct fuel as [|fuel]; [lia|].
    rewrite read_array_S. cbn [write_items Nat.eqb app].
    rewrite <- !app_assoc.
    assert (weight x <= fuel) as Hfuel' by lia.
    pose proof (IHx Hx [] _ fuel (or_introl eq_refl)
                  (delimited_items write 0 l rest) Hfuel') as E.
    cbn [app] in E. rewrite E.
    cbn [bind]. rewrite (rt_operator_bool x Hx), push_back_undefined.
    rewrite (assign_well_formed x (rt_well_formed x Hx)). cbn [option_map].
    rewrite (read_array_appendable l Hl) by lia.
    cbn [bind app]. now rewrite (assign_well_formed _ Hwf).
  - apply (read_value_keyword fuel lead rest Hlead).
  - apply (read_value_keyword fuel lead rest Hlead).
Qed.

End ReaderFacts.

(** ** Equality and order *)

(** C4. Two elements with different tags are never equal, and the first is
    less than the second exactly when its tag has the lower ordinal; the
    ordinals follow the declared order String, Number, Object, Array, True,
    False, Null, Byte, Int32, Int64, Date, Undefined. *)
Theorem different_tags (a b : element) :
  type a <> type b ->
  element_eq a b = false
  /\ (element_lt a b = true <-> (ordinal (type a) < ordinal (type b))%Z)
  /\ map ordinal declared_order = [0; 1; 2; 3; 4; 5; 6; 7; 8; 9; 10; 11]%Z.
Proof.
  intro H. split; [now apply element_eq_diff|]. split; [|reflexivity].
  rewrite (element_lt_diff a b H). unfold type_ltb. apply Z.ltb_lt.
Qed.

Lemma different_tags_witness :
  type (ENumber (double_of_Z 5)) <> type ETrue
  /\ element_eq (ENumber (double_of_Z 5)) ETrue = false
  /\ (element_lt (ENumber (double_of_Z 5)) ETrue = true
      <-> (ordinal (type (ENumber (double_of_Z 5))) < ordinal (type ETrue))%Z).
Proof.
  assert (type (ENumber (double_of_Z 5)) <> type ETrue) as H by discriminate.
  split; [exact H|].
  destruct (different_tags (ENumber (double_of_Z 5)) ETrue H) as (H1 & H2 & _).
  split; [exact H1 | exact H2].
Defined.

(** C7. A Null element is not equal to itself, through the operator on
    elements and through the operator on values. *)
Theorem null_irreflexivity (n : element) :
  type n = JSON_NULL -> element_eq n n = false /\ value_eq n n = false.
Proof. destruct n; try discriminate. intros _. split; reflexivity. Qed.

Lemma null_irreflexivity_witness :
  type ENull = JSON_NULL /\ element_eq ENull ENull = false /\ value_eq ENull ENull = false.
Proof. split; [reflexivity | exact (null_irreflexivity ENull eq_refl)]. Defined.



(** C3, as stated, fails: an array that holds a Null is neither less than,
    nor greater than, nor equal to itself. *)
Lemma ordering_totality_fails_on_array_of_null :
  type array_of_null = type array_of_null
  /\ type array_of_null <> JSON_NULL /\ type array_of_null <> JSON_UNDEFINED
  /\ element_lt array_of_null array_of_null = false
  /\ element_eq array_of_null array_of_null = false
  /\ exactly_one (element_lt array_of_null array_of_null)
       (element_lt array_of_null array_of_null)
       (element_eq array_of_null array_of_null) = false.
Proof. repeat split; discriminate. Qed.

(** C3 (amended). For two elements with equal tags that are well formed and
    hold no Null, no Undefined and no NaN at any depth, exactly one of
    [a < b], [b < a] and [a == b] holds; for two elements with different
    tags, [==] and [<] are the comparisons of the tag ordinals. *)
Theorem ordering_totality (a b : element) :
  (type a = type b -> ordered a = true -> ordered b = true ->
   exactly_one (element_lt a b) (element_lt b a) (element_eq a b) = true)
  /\ (type a <> type b ->
      element_eq a b = type_eqb (type a) (type b)
      /\ element_lt a b = type_ltb (type a) (type b)
      /\ element_lt b a = type_ltb (type b) (type a)).
Proof.
  split.
  - intros _ Ha Hb. now apply element_trichotomy.
  - intro H. split; [|split].
    + rewrite (element_eq_diff a b H). symmetry.
      destruct (type_eqb (type a) (type b)) eqn:E; [|reflexivity].
      now apply type_eqb_eq in E.
    + now apply element_lt_diff.
    + apply element_lt_diff. congruence.
Qed.

Lemma ordering_totality_witness :
  type sample_value = type (EArray [ETrue])
  /\ ordered sample_value = true /\ ordered (EArray [ETrue]) = true
  /\ exactly_one (element_lt sample_value (EArray [ETrue]))
       (element_lt (EArray [ETrue]) sample_value)
       (element_eq sample_value (EArray [ETrue])) = true
  /\ type ETrue <> type EFalse
  /\ element_lt ETrue EFalse = type_ltb (type ETrue) (type EFalse).
Proof.
  split; [reflexivity|]. split; [reflexivity|]. split; [reflexivity|].
  split; [exact (proj1 (ordering_totality sample_value (EArray [ETrue])) eq_refl eq_refl eq_refl)|].
  assert (type ETrue <> type EFalse) as H by discriminate.
  split; [exact H|].
  exact (proj1 (proj2 (proj2 (ordering_totality ETrue EFalse) H))).
Defined.

(** ** Construction and append *)

(** C10. A value constructed from a non-negative [int] [n] is an array of
    size [n] whose items all have the tag Undefined. *)
Theorem value_of_int_array (n : Z) :
  (0 <= n <= INT_MAX)%Z ->
  type (value_of_int n) = JSON_ARRAY
  /\ array_size (value_of_int n) = Z.to_nat n
  /\ (forall i, i < Z.to_nat n -> index (value_of_int n) i = Some EUndefined)
  /\ (forall i x, index (value_of_int n) i = Some x -> type x = JSON_UNDEFINED).
Proof.
  intro Hn. unfold value_of_int, size_t_of_int, construct_array, INT_MAX in *.
  rewrite Z.mod_small by (split; [lia|]; apply Z.le_lt_trans with (2 ^ 31 - 1)%Z; [lia | reflexivity]).
  cbn [type array_size index]. split; [reflexivity|]. split; [apply repeat_length|].
  split.
  - intros i Hi. now apply nth_error_repeat.
  - intros i x Hx. apply nth_error_In, repeat_spec in Hx. now subst.
Qed.

Lemma value_of_int_array_witness :
  (0 <= 3 <= INT_MAX)%Z
  /\ type (value_of_int 3) = JSON_ARRAY
  /\ array_size (value_of_int 3) = 3
  /\ index (value_of_int 3) 2 = Some EUndefined.
Proof.
  assert (0 <= 3 <= INT_MAX)%Z as H by (unfold INT_MAX; lia).
  destruct (value_of_int_array 3 H) as (H1 & H2 & H3 & _).
  split; [exact H|]. split; [exact H1|]. split; [exact H2|].
  apply H3. apply Nat.lt_succ_diag_r.
Defined.

(** Appending to a value of a tag without a buffer, Undefined apart: the
    value and the copy of the element make an array of two items. *)
Lemma push_back_scalar (v e : element) :
  non_pointer_type v = true -> type v <> JSON_UNDEFINED ->
  push_back v (Separate e) = option_map (fun x => EArray [v; x]) (assign e).
Proof.
  intros Hv Hund. unfold push_back, push_back_array, construct_copy.
  destruct (type_eqb (type v) JSON_UNDEFINED) eqn:E1; [now apply type_eqb_eq in E1|].
  destruct v; try discriminate Hv; try (now elim Hund); cbn; now destruct (assign e).
Qed.

(** C5. Appending to a String or a Byte value has no defined result,
    whatever is appended: [push_back_array] starts with the local [this_], a
    copy of the value, and the copy constructor runs [delete_value()] on the
    tag of [this_], which was never written. *)
Theorem scalar_coercion_of_buffer (v : element) (r : reference) :
  type v = JSON_STRING \/ type v = JSON_BYTE -> push_back v r = None.
Proof.
  intros [H | H]; destruct v; try discriminate H; now destruct r.
Qed.

Lemma scalar_coercion_of_buffer_witness :
  (type (EString sample_string) = JSON_STRING \/ type (EString sample_string) = JSON_BYTE)
  /\ well_formed (EString sample_string) = true
  /\ push_back (EString sample_string) (Separate ETrue) = None.
Proof.
  assert (type (EString sample_string) = JSON_STRING \/ type (EString sample_string) = JSON_BYTE)
    as H by (left; reflexivity).
  split; [exact H|]. split; [reflexivity|].
  exact (scalar_coercion_of_buffer (EString sample_string) (Separate ETrue) H).
Defined.

(** C6, as stated, fails: after an append to the array that holds a Null,
    item 0 is the Null it was, and under the equality of the operators a
    Null is equal to nothing. *)
Lemma append_keeps_null_unequal :
  type array_of_null = JSON_ARRAY
  /\ index array_of_null 0 = Some ENull
  /\ push_back array_of_null (Separate ETrue) = Some (EArray [ENull; ETrue])
  /\ push_back_all array_of_null [ETrue] = Some (EArray [ENull; ETrue])
  /\ index (EArray [ENull; ETrue]) 0 = Some ENull
  /\ element_eq ENull ENull = false.
Proof. repeat split. Qed.

(** C6 (amended). Appending to an array value an element that is an object
    apart from it and is no String, Array or Byte, or the items of an array
    of such elements, gives an array whose size is the size before plus the
    number of appended items, and in which every item held before is the
    same item at the same index; such an item is equal to the former one
    under the equality of the operators exactly when it is equal to itself.
    Appending a String, an Array or a Byte, or the value itself or one of
    its items, has no defined result: the item that [realloc] adds is
    assigned with its tag unwritten. *)
Theorem append_monotonicity (v e : element) (a : list element) :
  type v = JSON_ARRAY ->
  (non_pointer_type e = true ->
   exists v', push_back v (Separate e) = Some v'
     /\ type v' = JSON_ARRAY
     /\ array_size v' = array_size v + 1
     /\ (forall i x, index v i = Some x -> index v' i = Some x)
     /\ (forall i x y, index v i = Some x -> index v' i = Some y ->
           element_eq y x = element_eq x x))
  /\ (forallb non_pointer_type a = true ->
      exists v', push_back_all v a = Some v'
        /\ type v' = JSON_ARRAY
        /\ array_size v' = array_size v + length a
        /\ (forall i x, index v i = Some x -> index v' i = Some x)
        /\ (forall i x y, index v i = Some x -> index v' i = Some y ->
              element_eq y x = element_eq x x))
  /\ (non_pointer_type e = false -> push_back v (Separate e) = None)
  /\ (forallb non_pointer_type a = false -> push_back_all v a = None)
  /\ push_back v Aliased = None.
Proof.
  destruct v as [ | | |l| | | | | | | | ]; try discriminate. intros _.
  assert (forall l' i x, nth_error l i = Some x -> nth_error (l ++ l') i = Some x) as Hkeep.
  { intros l' i x Hx. rewrite nth_error_app1; [exact Hx|].
    apply nth_error_Some. congruence. }
  split; [|split; [|split; [|split]]].
  - intro He. exists (EArray (l ++ [e])). rewrite push_back_array_item, He.
    cbn [type array_size index]. split; [reflexivity|]. split; [reflexivity|].
    split; [now rewrite length_app|]. split; [apply Hkeep|].
    intros i x y Hx Hy. rewrite (Hkeep _ i x Hx) in Hy. congruence.
  - intro Ha. exists (EArray (l ++ a)).
    unfold push_back_all, push_back_array_array. cbn.
    rewrite (construct_copies a Ha). cbn.
    split; [reflexivity|]. split; [reflexivity|].
    split; [now rewrite length_app|]. split; [apply Hkeep|].
    intros i x y Hx Hy. rewrite (Hkeep _ i x Hx) in Hy. congruence.
  - intro He. now rewrite push_back_array_item, He.
  - intro Ha. unfold push_back_all, push_back_array_array. cbn.
    destruct (map_option construct_copy a) as [xs|] eqn:E; [|reflexivity].
    exfalso. apply map_option_Some in E.
    assert (forallb non_pointer_type a = true); [|congruence].
    clear Ha. induction E as [|x y a' xs' Hx _ IH]; [reflexivity|].
    apply construct_copy_Some in Hx as [Hx _]. cbn. now rewrite Hx.
  - reflexivity.
Qed.

Lemma append_monotonicity_witness :
  type sample_value = JSON_ARRAY
  /\ non_pointer_type ENull = true
  /\ forallb non_pointer_type [ETrue; EFalse] = true
  /\ (exists v', push_back sample_value (Separate ENull) = Some v'
        /\ array_size v' = array_size sample_value + 1)
  /\ (exists v', push_back_all sample_value [ETrue; EFalse] = Some v'
        /\ array_size v' = array_size sample_value + 2).
Proof.
  destruct (append_monotonicity sample_value ENull [ETrue; EFalse] eq_refl)
    as (H1 & H2 & _).
  destruct (H1 eq_refl) as (v1 & E1 & _ & S1 & _).
  destruct (H2 eq_refl) as (v2 & E2 & _ & S2 & _).
  split; [reflexivity|]. split; [reflexivity|]. split; [reflexivity|].
  split; [exists v1 | exists v2]; split; assumption.
Defined.

(** ** Reading *)




Lemma delimited_inv (rest : list ascii) :
  delimited rest = true ->
  rest = [] \/ exists r, rest = "," :: r \/ rest = "]" :: r.
Proof.
  destruct rest as [|c r]; [now left|]. cbn [delimited]. intro H. right. exists r.
  apply orb_true_iff in H as [H|H]; apply Ascii.eqb_eq in H; subst c; [left | right]; reflexivity.
Qed.

Lemma sample_numbers_round_trip :
  number_round_trips scan_integer write_integral (double_of_Z 5)
  /\ number_round_trips scan_integer write_integral (double_of_Z (-42)).
Proof.
  split; (split; [reflexivity|]); (split; [do 2 eexists; split; vm_compute; reflexivity|]);
    intros rest Hrest;
    destruct (delimited_inv rest Hrest) as [-> | [r [-> | ->]]]; reflexivity.
Qed.


(** Outside the values of [round_trip]: a String or an Array behind the
    first item of an array is appended to an item whose tag was never
    written, so that reading the text has no defined result. *)
Example later_string_item_has_no_result :
  write_value write_integral no_pointer
    (EArray [ETrue; EString (string_ 2 (text "s1"))])
  = text "[true," ++ ["034"] ++ text "s1" ++ ["034"] ++ text "]"
  /\ read NUL scan_integer 9
       (stream_of (write_value write_integral no_pointer
                     (EArray [ETrue; EString (string_ 2 (text "s1"))])))
     = NoDefinedResult.
Proof. split; reflexivity. Qed.

(** Also outside: an empty array is read back as Undefined, a blank inside
    a string is dropped, and a quote inside a string ends it. *)
Example empty_array_is_read_as_undefined :
  write_value write_integral no_pointer (EArray []) = text "[]"
  /\ read NUL scan_integer 3 (stream_of (text "[]")) = Ok EUndefined (stream_of []).
Proof. split; reflexivity. Qed.

Example quote_in_string_ends_it :
  read NUL scan_integer 5 (stream_of (write_value write_integral no_pointer
                                       (EString (string_ 4 (text "it's")))))
  = Ok (EString (string_ 2 (text "it"))) (stream_of ["s"; "034"]).
Proof. reflexivity. Qed.

Example blank_in_string_is_dropped :
  read NUL scan_integer 5 (stream_of (write_value write_integral no_pointer
                                       (EString (string_ 3 (text "a b")))))
  = Ok (EString (string_ 2 (text "ab"))) (stream_of []).
Proof. reflexivity. Qed.

(** C2. The text [{"a":1,"b":[true,false]}] is not read as an object: once
    the first member is read, [read_pair] meets the comma where it asserts a
    quote, and the assertion fails.  The hypothesis states that the stream
    library scans [1] in front of the comma as the number one. *)
Theorem read_object_two_members_aborts (indeterminate : ascii)
  (scan_double : list ascii -> option (double * list ascii)) (fuel : nat) :
  scan_double (text "1" ++ after_first_member) = Some (double_of_Z 1, after_first_member) ->
  parse.read_object indeterminate scan_double (S (S fuel)) (stream_of two_members)
  = AssertionFailure.
Proof.
  intro H.
  unfold parse.read_object, parse.read_members.
  cbn [parse.read_members_loop].
  change (stream_of two_members)
    with (stream_of ("{" :: "034" :: "a" :: "034" :: ":" :: "1" :: after_first_member)).
  unfold parse.eat at 1. rewrite get_char by reflexivity.
  cbn [Ascii.eqb Bool.eqb ensure bind].
  unfold parse.read_pair at 1. rewrite get_char by reflexivity.
  cbn [Ascii.eqb Bool.eqb ensure bind is_quote orb].
  unfold parse.read_key, parse.read_string. rewrite get_char by reflexivity.
  cbn [parse.read_string_loop is_quote Ascii.eqb Bool.eqb orb].
  rewrite get_char by reflexivity.
  rewrite read_string_loop_quote by reflexivity.
  cbn [bind app]. unfold parse.eat at 1. rewrite get_char by reflexivity.
  cbn [Ascii.eqb Bool.eqb ensure bind].
  rewrite (read_value_scan indeterminate scan_double fuel "1" after_first_member
             after_first_member (double_of_Z 1) eq_refl H).
  cbn [bind assign defined]. unfold insert, construct_copy.
  cbn [snd non_pointer_type and_then]. unfold parse.read_pair.
  change (stream_of after_first_member)
    with (stream_of ("," :: tl after_first_member)).
  rewrite get_char by reflexivity. reflexivity.
Qed.

Lemma read_object_two_members_aborts_witness :
  scan_integer (text "1" ++ after_first_member) = Some (double_of_Z 1, after_first_member)
  /\ parse.read_object NUL scan_integer 2 (stream_of two_members) = AssertionFailure.
Proof.
  split; [reflexivity|].
  exact (read_object_two_members_aborts NUL scan_integer 0 eq_refl).
Defined.

(** With a blank in the place of the comma [read_pair] goes on to the
    second member; its array has no defined copy into the entry of the map,
    where two members without a buffer are read. *)
Example read_object_two_members_blank :
  parse.read_object NUL scan_integer 8 (stream_of two_members_blank) = NoDefinedResult
  /\ parse.read_object NUL scan_integer 8 (stream_of two_scalar_members_blank)
     = Ok [(text "a", ENumber (double_of_Z 1)); (text "b", ETrue)] (stream_of []).
Proof. split; vm_compute; reflexivity. Qed.



(** The excluded case: were the unassigned [char] an ['e'], the three
    letters would be read as True. *)
Example truncated_true_with_stale_e :
  parse.read_value "e" scan_integer 1 (stream_of (text "tru"))
  = Ok ETrue (mk_istream [] true).
Proof. reflexivity. Qed.

(** ** Further facts about equality and order *)

Lemma SFcompare_refl (d : double) :
  SFcompare d d = if is_nan d then None else Some Eq.
Proof.
  destruct d as [s|s| |s m e]; simpl; try reflexivity; try (now destruct s).
  destruct s; rewrite Z.compare_refl, Pos.compare_cont_refl; reflexivity.
Qed.

Lemma lexicographical_compare2_not_both {A : Type} (lt2 : A -> A -> bool * bool) (x y : list A) :
  (forall a, In a x -> forall b, lt2 a b <> (true, true)) ->
  lexicographical_compare2 lt2 x y <> (true, true).
Proof.
  revert y. induction x as [|a x IH]; intros [|b y] H; simpl; try discriminate.
  assert (Hab := H a (or_introl eq_refl) b).
  assert (IH' := IH y (fun a' Ha => H a' (or_intror Ha))).
  destruct (lt2 a b) as [[] []], (lexicographical_compare2 lt2 x y) as [[] []];
    congruence.
Qed.

Lemma element_lt2_not_both (a b : element) : element_lt2 a b <> (true, true).
Proof.
  revert b. induction a as [s|d|p|l IH| | | |x|i|i|t|] using element_nested_ind;
    intros [s'|d'|p'|l'| | | |x'|i'|i'|t'|]; try discriminate.
  - cbn. unfold string_lt. rewrite (strcmp_antisym (data s) (data s')).
    destruct (Z.ltb_spec (strcmp (data s) (data s')) 0), (Z.ltb_spec (- strcmp (data s) (data s')) 0);
      try discriminate; lia.
  - cbn. unfold SFltb. rewrite (SFcompare_swap d d').
    now destruct (SFcompare d d') as [[]|].
  - cbn. destruct (Z.ltb_spec p p'), (Z.ltb_spec p' p); try discriminate; lia.
  - cbn -[lexicographical_compare2]. apply lexicographical_compare2_not_both.
    rewrite Forall_forall in IH. exact IH.
  - cbn. pose proof (byte_trichotomy x x') as H.
    destruct (byte_lt x x'), (byte_lt x' x), (byte_eq x x'); try discriminate H; discriminate.
  - cbn. destruct (Z.ltb_spec i i'), (Z.ltb_spec i' i); try discriminate; lia.
  - cbn. destruct (Z.ltb_spec i i'), (Z.ltb_spec i' i); try discriminate; lia.
  - cbn. destruct (Z.ltb_spec t t'), (Z.ltb_spec t' t); try discriminate; lia.
Qed.

(** X1. [operator<] on elements is asymmetric, hence irreflexive, whatever
    the elements hold. *)
Theorem element_lt_asymmetric (a b : element) :
  (element_lt a b = true -> element_lt b a = false)
  /\ element_lt a a = false.
Proof.
  assert (forall x y, element_lt x y = true -> element_lt y x = false) as H.
  { intros x y Hxy. unfold element_lt in *. rewrite (element_lt2_swap x y). cbn [fst].
    pose proof (element_lt2_not_both x y) as Hnb.
    destruct (element_lt2 x y) as [[] []]; cbn in *; congruence. }
  split; [apply H|].
  destruct (element_lt a a) eqn:E; [|reflexivity].
  rewrite (H a a E) in E. discriminate.
Qed.

Lemma element_lt_asymmetric_witness :
  element_lt (ENumber (double_of_Z 5)) sample_value = true
  /\ element_lt sample_value (ENumber (double_of_Z 5)) = false.
Proof.
  split; [reflexivity|].
  exact (proj1 (element_lt_asymmetric (ENumber (double_of_Z 5)) sample_value) eq_refl).
Defined.

Lemma std_equal_sym {A : Type} (eq : A -> A -> bool) (x y : list A) :
  length x = length y ->
  (forall a, In a x -> forall b, eq a b = eq b a) ->
  std_equal eq x y = std_equal eq y x.
Proof.
  revert y. induction x as [|a x IH]; intros [|b y] Hlen H; try discriminate Hlen;
    simpl; [reflexivity|].
  rewrite (H a (or_introl eq_refl) b).
  rewrite (IH y); [reflexivity | now injection Hlen | intros a' Ha; apply H; now right].
Qed.

Lemma SFeqb_sym (x y : double) : SFeqb x y = SFeqb y x.
Proof.
  unfold SFeqb. rewrite (SFcompare_swap x y). now destruct (SFcompare x y) as [[]|].
Qed.

Lemma string_eq_sym (s t : string) : string_eq s t = string_eq t s.
Proof.
  unfold string_eq. rewrite (N.eqb_sym (size s)), (strcmp_antisym (data s) (data t)).
  f_equal. destruct (Z.eqb_spec 0 (strcmp (data s) (data t))), (Z.eqb_spec 0 (- strcmp (data s) (data t)));
    try reflexivity; lia.
Qed.

Lemma memcmp_eq_sym (a b : list Byte.byte) :
  length a = length b -> memcmp_eq a b (length a) = memcmp_eq b a (length b).
Proof.
  intro H. rewrite !memcmp_eq_std_equal. apply std_equal_sym; [exact H|].
  intros x _ y. destruct (Byte.eqb x y) eqn:E.
  - apply Byte.byte_dec_bl in E. subst. symmetry. now apply Byte.byte_dec_lb.
  - destruct (Byte.eqb y x) eqn:E'; [|reflexivity].
    apply Byte.byte_dec_bl in E'. subst. now rewrite (Byte.byte_dec_lb eq_refl) in E.
Qed.

(** X2. [operator==] on elements is symmetric. *)
Theorem element_eq_symmetric (a b : element) : element_eq a b = element_eq b a.
Proof.
  revert b. induction a as [s|d|p|l IH| | | |x|i|i|t|] using element_nested_ind;
    intros [s'|d'|p'|l'| | | |x'|i'|i'|t'|]; try reflexivity.
  - exact (string_eq_sym s s').
  - exact (SFeqb_sym d d').
  - cbn. apply Z.eqb_sym.
  - cbn. rewrite (Nat.eqb_sym (length l)).
    destruct (Nat.eqb_spec (length l') (length l)) as [Hlen|]; [|reflexivity]. cbn [andb].
    apply std_equal_sym; [now symmetry|]. rewrite Forall_forall in IH. exact IH.
  - cbn. unfold byte_eq. rewrite (Nat.eqb_sym (length x)).
    destruct (Nat.eqb_spec (length x') (length x)) as [Hlen|]; [|reflexivity]. cbn [andb].
    apply memcmp_eq_sym. now symmetry.
  - cbn. apply Z.eqb_sym.
  - cbn. apply Z.eqb_sym.
  - cbn. apply Z.eqb_sym.
Qed.

Lemma std_equal_not_less {A : Type} (lt eq : A -> A -> bool) (x y : list A) :
  (forall a, In a x -> forall b, eq a b = true -> lt a b = false /\ lt b a = false) ->
  length x = length y -> std_equal eq x y = true ->
  lexicographical_compare lt x y = false /\ lexicographical_compare lt y x = false.
Proof.
  revert y. induction x as [|a x IH]; intros [|b y] H Hlen; try discriminate Hlen;
    simpl; [now split|].
  destruct (eq a b) eqn:E; [|discriminate].
  destruct (H a (or_introl eq_refl) b E) as [-> ->].
  apply IH; [intros a' Ha; apply H; now right | now injection Hlen].
Qed.

(** X3. Two elements that compare equal are not ordered by [operator<], in
    either direction. *)
Theorem element_eq_excludes_lt (a b : element) :
  element_eq a b = true -> element_lt a b = false /\ element_lt b a = false.
Proof.
  revert b. induction a as [s|d|p|l IH| | | |x|i|i|t|] using element_nested_ind;
    intros [s'|d'|p'|l'| | | |x'|i'|i'|t'|]; try discriminate; intro H;
    rewrite !element_lt_unfold; cbn in H |- *.
  - unfold string_eq in H. apply andb_true_iff in H as [_ H]. apply Z.eqb_eq in H.
    unfold string_lt. rewrite (strcmp_antisym (data s) (data s')), <- H. now split.
  - unfold SFeqb in H. unfold SFltb. rewrite (SFcompare_swap d d').
    destruct (SFcompare d d') as [[]|]; try discriminate. now split.
  - apply Z.eqb_eq in H. subst. now rewrite Z.ltb_irrefl.
  - apply andb_true_iff in H as [Hlen H]. apply Nat.eqb_eq in Hlen.
    apply (std_equal_not_less element_lt element_eq); try assumption.
    rewrite Forall_forall in IH. exact IH.
  - split; reflexivity.
  - split; reflexivity.
  - pose proof (byte_trichotomy x x') as T. rewrite H in T.
    destruct (byte_lt x x'), (byte_lt x' x); try discriminate T. now split.
  - apply Z.eqb_eq in H. subst. now rewrite Z.ltb_irrefl.
  - apply Z.eqb_eq in H. subst. now rewrite Z.ltb_irrefl.
  - apply Z.eqb_eq in H. subst. now rewrite Z.ltb_irrefl.
Qed.

Lemma element_eq_excludes_lt_witness :
  element_eq sample_value sample_value = true
  /\ element_lt sample_value sample_value = false.
Proof.
  split; [reflexivity|].
  exact (proj1 (element_eq_excludes_lt sample_value sample_value eq_refl)).
Defined.

(** ** Transitivity of the order *)

Lemma SFcompare_trans (x y z : double) (c : comparison) :
  (SFcompare x y = Some c /\ SFcompare y z = Some Eq
   \/ SFcompare x y = Some Eq /\ SFcompare y z = Some c
   \/ SFcompare x y = Some Lt /\ SFcompare y z = Some Lt /\ c = Lt) ->
  SFcompare x z = Some c.
Proof.
  destruct x as [s1|s1| |s1 m1 e1], y as [s2|s2| |s2 m2 e2], z as [s3|s3| |s3 m3 e3];
    simpl; intros [[H1 H2]|[[H1 H2]|[H1 [H2 ->]]]];
    try discriminate;
    try (destruct s1; discriminate); try (destruct s2; discriminate);
    try (destruct s3; discriminate);
    try (destruct s1, s2; discriminate); try (destruct s2, s3; discriminate);
    try (destruct s1, s2, s3; simpl in *; congruence);
    try (destruct s1, s2; simpl in *; congruence);
    try (destruct s2, s3; simpl in *; congruence);
    try (destruct s1, s3; simpl in *; congruence).
  all: change (Pos.compare_cont Eq) with Pos.compare in *.
  all: destruct s1, s2, s3; try discriminate; try congruence;
    destruct (Z.compare_spec e1 e2), (Z.compare_spec e2 e3), (Z.compare_spec e1 e3);
    try discriminate; try lia; try congruence; subst;
    destruct (Pos.compare_spec m1 m2), (Pos.compare_spec m2 m3), (Pos.compare_spec m1 m3);
    simpl in *; try discriminate; try lia; try congruence.
Qed.

Lemma lexicographical_laws {A : Type} (lt : A -> A -> bool) (good : A -> Prop) (x : list A) :
  Forall (order_laws lt good) x ->
  order_laws (lexicographical_compare lt) (Forall good) x.
Proof.
  induction 1 as [|a x Ha _ IH]; intros y z Hy Hz.
  - unfold unordered. destruct y as [|b y], z as [|c z]; simpl; repeat split; intros;
      try reflexivity; try discriminate; try tauto;
      repeat match goal with
             | H : _ /\ _ |- _ => destruct H
             | H : (if ?t then _ else _) = _ |- _ => destruct t
             end; try discriminate; try reflexivity.
  - destruct y as [|b y], z as [|c z].
    1-3: unfold unordered; simpl; repeat split; intros;
      repeat match goal with
             | H : _ /\ _ |- _ => destruct H
             | |- context [if ?t then _ else _] => destruct t
             | H : context [if ?t then _ else _] |- _ => destruct t
             end; try discriminate; try reflexivity.
    inversion Hy as [|b' y' Hb Hy']; subst. inversion Hz as [|c' z' Hc Hz']; subst.
    specialize (IH y z Hy' Hz').
    destruct IH as (I1 & I2 & I3 & I4 & I5 & I6).
    destruct (Ha b c Hb Hc) as (F1 & F2 & F3 & R1 & R2 & R3).
    destruct (Ha c b Hc Hb) as (G1 & G2 & G3 & S1 & S2 & S3).
    unfold unordered in *. simpl.
    destruct (lt a b) eqn:Eab, (lt b a) eqn:Eba, (lt b c) eqn:Ebc, (lt c b) eqn:Ecb,
      (lt a c) eqn:Eac, (lt c a) eqn:Eca;
      repeat split; intros;
      repeat match goal with H : _ /\ _ |- _ => destruct H end;
      try discriminate; try reflexivity; try tauto;
      try (exfalso; intuition congruence).
Qed.

Lemma order_laws_intro {A : Type} (lt : A -> A -> bool) (good : A -> Prop) :
  (forall a b c, good a -> good b -> good c ->
     (lt a b = true -> lt b c = true -> lt a c = true)
     /\ (unordered lt a b -> lt b c = true -> lt a c = true)
     /\ (lt a b = true -> unordered lt b c -> lt a c = true)) ->
  forall a, good a -> order_laws lt good a.
Proof.
  intros H a Ha b c Hb Hc.
  destruct (H a b c Ha Hb Hc) as (F1 & F2 & F3).
  destruct (H c b a Hc Hb Ha) as (R1 & R2 & R3).
  repeat split; assumption.
Qed.

Lemma Z_order_laws (f : Z -> Z) (i : Z) :
  order_laws (fun a b => (f a <? f b)%Z) (fun _ => True) i.
Proof.
  apply order_laws_intro; [|exact I]. clear i. intros a b c _ _ _. unfold unordered.
  repeat split; intros; repeat match goal with H : _ /\ _ |- _ => destruct H end;
    rewrite ?Z.ltb_lt, ?Z.ltb_ge in *; lia.
Qed.

Lemma char_order_laws (c : ascii) :
  order_laws (fun a b => (uchar a <? uchar b)%Z) (fun _ => True) c.
Proof.
  intros a b _ _. unfold unordered.
  repeat split; intros; repeat match goal with H : _ /\ _ |- _ => destruct H end;
    rewrite ?Z.ltb_lt, ?Z.ltb_ge in *; lia.
Qed.

Lemma byte_order_laws (x : Byte.byte) :
  order_laws (fun a b => (Byte.to_N a <? Byte.to_N b)%N) (fun _ => True) x.
Proof.
  intros a b _ _. unfold unordered.
  repeat split; intros; repeat match goal with H : _ /\ _ |- _ => destruct H end;
    rewrite ?N.ltb_lt, ?N.ltb_ge in *; lia.
Qed.

Lemma Forall_True {A : Type} (l : list A) : Forall (fun _ => True) l.
Proof. induction l; constructor; auto. Qed.

Lemma std_string_order_laws (s : std_string) :
  order_laws std_string_lt (fun _ => True) s.
Proof.
  intros t u _ _.
  apply (lexicographical_laws _ (fun _ => True) s); try apply Forall_True.
  apply Forall_forall. intros c _. apply char_order_laws.
Qed.

Lemma byte_lt_order_laws (x : list Byte.byte) :
  order_laws byte_lt (fun _ => True) x.
Proof.
  intros t u _ _.
  apply (lexicographical_laws _ (fun _ => True) x); try apply Forall_True.
  apply Forall_forall. intros c _. apply byte_order_laws.
Qed.

(** On C strings without an inner NUL, the sign test on [strcmp] is the
    order of [std::string]. *)
Lemma strcmp_std_string_lt (s t : list ascii) :
  nul_free s -> nul_free t -> (strcmp s t <? 0)%Z = std_string_lt s t.
Proof.
  revert t. induction s as [|c s IH]; intros [|d t] Hs Ht; cbn.
  - reflexivity.
  - apply nul_free_cons in Ht as [Hd _]. apply nul_free_uchar in Hd.
    apply Z.ltb_lt. lia.
  - pose proof (uchar_nonneg c). apply Z.ltb_ge. lia.
  - apply nul_free_cons in Hs as [Hc Hs]. apply nul_free_cons in Ht as [Hd Ht].
    destruct (Ascii.eqb c d) eqn:E.
    + apply Ascii.eqb_eq in E. subst d. rewrite Hc, !Z.ltb_irrefl.
      exact (IH t Hs Ht).
    + apply Ascii.eqb_neq in E.
      assert (uchar c <> uchar d) by (intro; now apply E, uchar_inj).
      destruct (Z.ltb_spec (uchar c) (uchar d)).
      * apply Z.ltb_lt. lia.
      * replace (uchar d <? uchar c)%Z with true by (symmetry; apply Z.ltb_lt; lia).
        apply Z.ltb_ge. lia.
Qed.

Lemma string_lt_order_laws (s : string) :
  string_ok s = true -> order_laws string_lt (fun t => string_ok t = true) s.
Proof.
  intros Hs t u Ht Hu.
  apply string_ok_inv in Hs as [_ Hs], Ht as [_ Ht], Hu as [_ Hu].
  unfold unordered, string_lt.
  rewrite !strcmp_std_string_lt by assumption.
  exact (std_string_order_laws (data s) (data t) (data u) I I).
Qed.

Lemma double_order_laws (x : double) :
  is_nan x = false -> order_laws SFltb (fun d => is_nan d = false) x.
Proof.
  revert x. apply order_laws_intro. intros a b c Ha Hb Hc.
  assert (forall x y, is_nan x = false -> is_nan y = false ->
            unordered SFltb x y -> SFcompare x y = Some Eq) as Hun.
  { intros x y Hx Hy [H1 H2]. unfold SFltb in *. rewrite (SFcompare_swap x y) in H2.
    destruct (SFcompare_defined x y Hx Hy) as [k Hk]. rewrite Hk in *.
    now destruct k. }
  assert (forall x y, SFltb x y = true -> SFcompare x y = Some Lt) as Hlt.
  { intros x y H. unfold SFltb in H. now destruct (SFcompare x y) as [[]|]. }
  repeat split; intros; unfold SFltb.
  - rewrite (SFcompare_trans a b c Lt); [reflexivity|]. right. right. auto.
  - rewrite (SFcompare_trans a b c Lt); [reflexivity|]. right. left. auto.
  - rewrite (SFcompare_trans a b c Lt); [reflexivity|]. left. auto.
Qed.

Lemma element_lt_tag_le (a b : element) :
  element_lt a b = true -> (ordinal (type a) <= ordinal (type b))%Z.
Proof.
  rewrite element_lt_unfold. unfold element_lt_body, type_ltb.
  destruct (Z.ltb_spec (ordinal (type a)) (ordinal (type b))); [lia|].
  destruct (Z.ltb_spec (ordinal (type b)) (ordinal (type a))); [discriminate | lia].
Qed.

Lemma element_lt_of_tag (a b : element) :
  (ordinal (type a) < ordinal (type b))%Z -> element_lt a b = true.
Proof.
  intro H. rewrite element_lt_diff; [now apply Z.ltb_lt|].
  intro E. rewrite E in H. lia.
Qed.

Lemma unordered_same_tag (a b : element) :
  unordered element_lt a b -> type a = type b.
Proof.
  intros [H1 H2]. apply ordinal_inj.
  destruct (Z.lt_trichotomy (ordinal (type a)) (ordinal (type b))) as [H|[H|H]];
    [|exact H|]; apply element_lt_of_tag in H; congruence.
Qed.

(** The laws hold at [a] as soon as they hold against the elements that
    have the tag of [a]. *)
Lemma order_laws_same_tag (a : element) :
  (forall b c, ordered b = true -> ordered c = true ->
     type b = type a -> type c = type a ->
     (element_lt a b = true -> element_lt b c = true -> element_lt a c = true)
     /\ (unordered element_lt a b -> element_lt b c = true -> element_lt a c = true)
     /\ (element_lt a b = true -> unordered element_lt b c -> element_lt a c = true)
     /\ (element_lt c b = true -> element_lt b a = true -> element_lt c a = true)
     /\ (unordered element_lt c b -> element_lt b a = true -> element_lt c a = true)
     /\ (element_lt c b = true -> unordered element_lt b a -> element_lt c a = true)) ->
  order_laws element_lt (fun e => ordered e = true) a.
Proof.
  intros H b c Hb Hc.
  assert (forall x y z, (element_lt x y = true \/ unordered element_lt x y) ->
            (element_lt y z = true \/ unordered element_lt y z) ->
            (ordinal (type x) < ordinal (type z))%Z
            \/ (type x = type y /\ type y = type z)) as Htag.
  { intros x y z Hxy Hyz.
    assert (ordinal (type x) <= ordinal (type y))%Z as L1
      by (destruct Hxy as [E|E]; [now apply element_lt_tag_le | now rewrite (unordered_same_tag _ _ E)]).
    assert (ordinal (type y) <= ordinal (type z))%Z as L2
      by (destruct Hyz as [E|E]; [now apply element_lt_tag_le | now rewrite (unordered_same_tag _ _ E)]).
    destruct (Z.eq_dec (ordinal (type x)) (ordinal (type z))) as [E|E]; [right | left; lia].
    split; apply ordinal_inj; lia. }
  repeat split; intros H1 H2.
  1: destruct (Htag a b c (or_introl H1) (or_introl H2)) as [L|[E1 E2]].
  3: destruct (Htag a b c (or_intror H1) (or_introl H2)) as [L|[E1 E2]].
  5: destruct (Htag a b c (or_introl H1) (or_intror H2)) as [L|[E1 E2]].
  7: destruct (Htag c b a (or_introl H1) (or_introl H2)) as [L|[E1 E2]].
  9: destruct (Htag c b a (or_intror H1) (or_introl H2)) as [L|[E1 E2]].
  11: destruct (Htag c b a (or_introl H1) (or_intror H2)) as [L|[E1 E2]].
  all: try (now apply element_lt_of_tag).
  all: assert (type b = type a) as Eb by congruence;
    assert (type c = type a) as Ec by congruence;
    destruct (H b c Hb Hc Eb Ec) as (F1 & F2 & F3 & R1 & R2 & R3); auto.
Qed.

Lemma element_lt_array (x y : list element) :
  element_lt (EArray x) (EArray y) = lexicographical_compare element_lt x y.
Proof. now rewrite element_lt_unfold. Qed.

Lemma element_order_laws (a : element) :
  ordered a = true -> order_laws element_lt (fun e => ordered e = true) a.
Proof.
  induction a as [s|d|p|l IH| | | |x|i|i|t|] using element_nested_ind;
    intro Ha; try discriminate Ha;
    apply order_laws_same_tag; intros b c Hb Hc Eb Ec;
    destruct b; try discriminate Eb; destruct c; try discriminate Ec.
  - exact (string_lt_order_laws s Ha _ _ Hb Hc).
  - cbn in Ha, Hb, Hc. apply negb_true_iff in Ha, Hb, Hc.
    exact (double_order_laws d Ha _ _ Hb Hc).
  - exact (Z_order_laws (fun z => z) p _ _ I I).
  - unfold unordered. rewrite !element_lt_array.
    cbn in Ha, Hb, Hc. rewrite forallb_forall in Ha, Hb, Hc.
    apply (lexicographical_laws element_lt (fun e => ordered e = true) l).
    + rewrite Forall_forall in *. intros e He. exact (IH e He (Ha e He)).
    + now apply Forall_forall.
    + now apply Forall_forall.
  - unfold unordered. cbn. repeat split; intros; try discriminate; tauto.
  - unfold unordered. cbn. repeat split; intros; try discriminate; tauto.
  - exact (byte_lt_order_laws x _ _ I I).
  - exact (Z_order_laws (fun z => z) i _ _ I I).
  - exact (Z_order_laws (fun z => z) i _ _ I I).
  - exact (Z_order_laws (fun z => z) t _ _ I I).
Qed.

(** X4. On elements that are well formed and hold no Null, no Undefined and
    no NaN, [operator<] is transitive. *)
Theorem element_lt_transitive (a b c : element) :
  ordered a = true -> ordered b = true -> ordered c = true ->
  element_lt a b = true -> element_lt b c = true -> element_lt a c = true.
Proof.
  intros Ha Hb Hc. exact (proj1 (element_order_laws a Ha b c Hb Hc)).
Qed.

Lemma element_lt_transitive_witness :
  ordered (EString sample_string) = true /\ ordered sample_value = true
  /\ ordered (EArray [ETrue]) = true
  /\ element_lt (EString sample_string) sample_value = true
  /\ element_lt sample_value (EArray [ETrue]) = true
  /\ element_lt (EString sample_string) (EArray [ETrue]) = true.
Proof.
  repeat (split; [reflexivity|]).
  exact (element_lt_transitive (EString sample_string) sample_value (EArray [ETrue])
           eq_refl eq_refl eq_refl eq_refl eq_refl).
Defined.

(** The hypothesis of [element_lt_transitive] is needed: with a NaN among
    the items, the first array is below the second and the second below the
    third, yet the first is not below the third. *)
Example element_lt_not_transitive_with_nan :
  element_lt (EArray [ENumber (double_of_Z 2); ENumber (double_of_Z 0)])
             (EArray [ENumber S754_nan; ENumber (double_of_Z 1)]) = true
  /\ element_lt (EArray [ENumber S754_nan; ENumber (double_of_Z 1)])
                (EArray [ENumber (double_of_Z 1); ENumber (double_of_Z 2)]) = true
  /\ element_lt (EArray [ENumber (double_of_Z 2); ENumber (double_of_Z 0)])
                (EArray [ENumber (double_of_Z 1); ENumber (double_of_Z 2)]) = false.
Proof. repeat split; vm_compute; reflexivity. Qed.

(** ** Operators with one payload operand *)

(** X5. Comparing an element with a payload by [==] is comparing it with
    the element that holds the payload.  By [<], for a string, a [double],
    a byte buffer and a timestamp, it is the same once the element has the
    tag of the payload, and false otherwise.  For a [bool] it is not: the
    element is below the [bool] exactly when it is a False and the [bool] is
    [true], where the element True is the one below the element False. *)
Theorem payload_operators_agree (e : element) :
  (forall s, element_eq_string e s = element_eq e (EString s))
  /\ (forall d, element_eq_number e d = element_eq e (ENumber d))
  /\ (forall b, element_eq_bool e b = element_eq e (value_of_bool b))
  /\ (forall x, element_eq_byte e x = element_eq e (EByte x))
  /\ (forall t, element_eq_date e t = element_eq e (EDate t))
  /\ (forall s, element_lt_string e s
                = type_eqb (type e) JSON_STRING && element_lt e (EString s))
  /\ (forall d, element_lt_number e d
                = type_eqb (type e) JSON_NUMBER && element_lt e (ENumber d))
  /\ (forall x, element_lt_byte e x
                = type_eqb (type e) JSON_BYTE && element_lt e (EByte x))
  /\ (forall t, element_lt_date e t
                = type_eqb (type e) JSON_DATE && element_lt e (EDate t))
  /\ (forall b, element_lt_bool e b
                = type_eqb (type e) JSON_FALSE && element_lt (value_of_bool b) e)
  /\ (forall b, element_lt_bool e b = true <-> type e = JSON_FALSE /\ b = true)
  /\ element_lt_bool EFalse true = true
  /\ element_lt EFalse (value_of_bool true) = false.
Proof.
  split; [|split; [|split; [|split; [|split; [|split; [|split; [|split; [|split]]]]]]]];
    try (intros; destruct e; try reflexivity; try (destruct b; reflexivity); fail).
  split; [|split; [|split; reflexivity]].
  - intros []; destruct e; reflexivity.
  - intros b. unfold element_lt_bool. rewrite andb_true_iff. split.
    + intros [H ->]. split; [|reflexivity]. now destruct e.
    + intros [H ->]. now rewrite H.
Qed.

(** X6. Between two elements a True is below a False, as their tags are;
    against a [bool] operand it is the False element that is below [true],
    and no element is below [false]. *)
Theorem boolean_order (a b : element) :
  type a = JSON_TRUE -> type b = JSON_FALSE ->
  element_lt a b = true /\ element_lt b a = false
  /\ element_lt_bool b true = true /\ element_lt_bool a true = false
  /\ (forall e, element_lt_bool e false = false).
Proof.
  intros Ha Hb. destruct a; try discriminate Ha. destruct b; try discriminate Hb.
  repeat split. intro e. unfold element_lt_bool. apply andb_false_r.
Qed.

Lemma boolean_order_witness :
  type ETrue = JSON_TRUE /\ type EFalse = JSON_FALSE
  /\ element_lt ETrue EFalse = true /\ element_lt_bool EFalse true = true.
Proof.
  destruct (boolean_order ETrue EFalse eq_refl eq_refl) as (H1 & _ & H2 & _).
  repeat split; assumption.
Defined.

Lemma strcmp_strcpy (s : list ascii) : strcmp (strcpy s) s = 0%Z.
Proof.
  induction s as [|c s IH]; [reflexivity|]. cbn [strcpy].
  destruct (Ascii.eqb c NUL) eqn:E.
  - apply Ascii.eqb_eq in E. subst. reflexivity.
  - cbn [strcmp]. now rewrite Ascii.eqb_refl, E.
Qed.

Lemma std_equal_byte_refl (x : list Byte.byte) : std_equal Byte.eqb x x = true.
Proof.
  induction x as [|b x IH]; [reflexivity|]. cbn.
  now rewrite (Byte.byte_dec_lb eq_refl).
Qed.

Lemma byte_lt_irrefl (x : list Byte.byte) : byte_lt x x = false.
Proof.
  pose proof (byte_trichotomy x x) as H. now destruct (byte_lt x x), (byte_eq x x).
Qed.

(** X7. A value compares equal, and not less, to the datum it was
    constructed from: a C string (whatever bytes follow its terminator), a
    [bool], a timestamp, a byte buffer of the given size; a [double] is not
    less either, and is equal unless it is a NaN. *)
Theorem constructed_value_equals_datum :
  (forall s, exists v, value_of_cstr s = Some v
             /\ element_eq_cstr v s = true /\ element_lt_cstr v s = false)
  /\ (forall b, element_eq_bool (value_of_bool b) b = true
                /\ element_lt_bool (value_of_bool b) b = false)
  /\ (forall t, element_eq_date (value_of_date t) t = true
                /\ element_lt_date (value_of_date t) t = false)
  /\ (forall x, exists v, value_of_bytes (length x) x = Some v
                /\ element_eq_byte v x = true /\ element_lt_byte v x = false)
  /\ (forall d, element_eq_number (value_of_double d) d = negb (is_nan d)
                /\ element_lt_number (value_of_double d) d = false).
Proof.
  split; [|split; [|split; [|split]]].
  - intro s. exists (EString (string_ (strlen s) (strcpy s))).
    unfold element_eq_cstr, element_lt_cstr, value_of_cstr, construct_string.
    cbn. rewrite N.leb_refl. unfold string_eq, string_lt. cbn.
    rewrite N.eqb_refl, strcmp_strcpy. repeat split.
  - intros []; split; reflexivity.
  - intro t. cbn. split; [apply Z.eqb_refl | apply Z.ltb_irrefl].
  - intro x. exists (EByte x). unfold value_of_bytes. rewrite construct_byte_all. cbn.
    split; [reflexivity|]. split; [|apply byte_lt_irrefl].
    unfold byte_eq. rewrite Nat.eqb_refl, memcmp_eq_std_equal. apply std_equal_byte_refl.
  - intro d. cbn. unfold SFeqb, SFltb. rewrite SFcompare_refl. now destruct (is_nan d).
Qed.

Lemma std_equal_byte_eq (a b : list Byte.byte) :
  length a = length b -> std_equal Byte.eqb a b = true -> a = b.
Proof.
  revert b. induction a as [|x a IH]; intros [|y b] Hlen; try discriminate Hlen;
    [reflexivity|]. cbn.
  destruct (Byte.eqb x y) eqn:E; [|discriminate].
  apply Byte.byte_dec_bl in E. subst. intro H. f_equal. apply IH; [now injection Hlen | exact H].
Qed.

(** X8. Two Byte elements are equal exactly when they hold the same bytes. *)
Theorem byte_equality (a b : list Byte.byte) :
  element_eq (EByte a) (EByte b) = true <-> a = b.
Proof.
  cbn. unfold byte_eq. rewrite memcmp_eq_std_equal. split.
  - intro H. apply andb_true_iff in H as [Hlen H]. apply Nat.eqb_eq in Hlen.
    now apply std_equal_byte_eq.
  - intros ->. now rewrite Nat.eqb_refl, std_equal_byte_refl.
Qed.

(** ** Copies and appends *)

Lemma strcpy_idempotent (s : list ascii) : strcpy (strcpy s) = strcpy s.
Proof.
  induction s as [|c s IH]; [reflexivity|]. cbn [strcpy].
  destruct (Ascii.eqb c NUL) eqn:E; [reflexivity|]. cbn [strcpy]. now rewrite E, IH.
Qed.

Lemma strlen_strcpy (s : list ascii) : strlen (strcpy s) = strlen s.
Proof.
  induction s as [|c s IH]; [reflexivity|]. cbn [strcpy strlen].
  destruct (Ascii.eqb c NUL) eqn:E; [reflexivity|]. cbn [strlen]. now rewrite E, IH.
Qed.

Lemma assign_type (e e' : element) : assign e = Some e' -> type e' = type e.
Proof.
  destruct e as [s|d|p|l| | | |b|i|i|t|]; cbn; intro H;
    try (injection H as <-; reflexivity).
  - unfold construct_string in H.
    destruct (strlen (data s) <=? _)%N; [injection H as <-; reflexivity | discriminate H].
  - destruct (map_option assign l); [injection H as <-; reflexivity | discriminate H].
  - rewrite construct_byte_all in H. injection H as <-. reflexivity.
Qed.

(** X9. Where the assignment from an element has a defined result, it keeps
    the tag, and assigning from the copy rebuilds the copy: the string is
    cut at its terminator once and for all.  The copy of a well-formed
    element is the element. *)
Theorem assign_idempotent (e e' : element) :
  assign e = Some e' ->
  type e' = type e /\ assign e' = Some e'
  /\ (well_formed e = true -> e' = e).
Proof.
  intro H. split; [exact (assign_type e e' H)|]. split.
  - revert e' H.
    induction e as [s|d|p|l IH| | | |x|i|i|t|] using element_nested_ind;
      intros e' H; try (cbn in H; injection H as <-; reflexivity).
    + cbn in H. unfold construct_string in H.
      destruct (strlen (data s) <=? (if (size s =? 0)%N then strlen (data s) else size s))%N
        eqn:Hle; [|discriminate H].
      injection H as <-. cbn. unfold construct_string. cbn.
      rewrite strcpy_idempotent, strlen_strcpy.
      destruct (size s =? 0)%N eqn:E.
      * destruct (strlen (data s) =? 0)%N eqn:E'; rewrite N.leb_refl; [|reflexivity].
        apply N.eqb_eq in E'. now rewrite E'.
      * now rewrite E, Hle.
    + cbn in H. destruct (map_option assign l) as [l'|] eqn:E; [|discriminate H].
      injection H as <-. cbn. rewrite (map_option_id assign l'); [reflexivity|].
      apply map_option_Some in E. clear -IH E.
      induction E as [|x y l l' Hx _ IHE]; [constructor|].
      inversion IH as [|? ? IHx IHl]; subst. constructor; [exact (IHx y Hx) | exact (IHE IHl)].
    + cbn in H. rewrite construct_byte_all in H. injection H as <-. apply construct_byte_all.
  - intro Hwf. rewrite (assign_well_formed e Hwf) in H. now injection H.
Qed.

Lemma assign_idempotent_witness :
  assign (EArray [EString (string_ 5 (text "hi")); ETrue])
  = Some (EArray [EString (string_ 5 (text "hi")); ETrue])
  /\ assign (EString (string_ 1 (text "hi"))) = None
  /\ type (EArray [EString (string_ 5 (text "hi")); ETrue]) = JSON_ARRAY.
Proof.
  split; [reflexivity|]. split; [reflexivity|].
  exact (proj1 (assign_idempotent (EArray [EString (string_ 5 (text "hi")); ETrue])
                  (EArray [EString (string_ 5 (text "hi")); ETrue]) eq_refl)).
Defined.

(** X10. An append of one element has a defined result exactly when the
    element is an object apart from the value, its copy by assignment is
    defined, and a String, an Array or a Byte is involved in neither of two
    places: as the element, when the value is an array, and as the value,
    when it is not.  The value is then an array, not empty, that ends with
    the copy of the element; its size is one more than the number of items
    held before, which is none for Undefined and one for a value that was
    not an array. *)
Theorem push_back_result (v : element) (r : reference) :
  (forall v', push_back v r = Some v' ->
     exists e x, r = Separate e /\ assign e = Some x
       /\ (if type_eqb (type v) JSON_ARRAY then non_pointer_type e
           else non_pointer_type v) = true
       /\ type v' = JSON_ARRAY
       /\ operator_bool v' = true
       /\ array_size v'
          = (if operator_bool v
             then if type_eqb (type v) JSON_ARRAY then array_size v else 1
             else 0) + 1
       /\ index v' (array_size v' - 1) = Some x)
  /\ (forall e x, r = Separate e -> assign e = Some x ->
      (if type_eqb (type v) JSON_ARRAY then non_pointer_type e
       else non_pointer_type v) = true ->
      exists v', push_back v r = Some v').
Proof.
  destruct r as [e|]; [|split; [intros v' H; destruct v; discriminate H
                               | intros e x H; discriminate H]].
  destruct v as [s|d|p|l| | | |b|i|i|t|];
    try (rewrite push_back_scalar by (reflexivity || discriminate);
         split;
         [ intros v' H; destruct (assign e) as [x|] eqn:E; [|discriminate H];
           injection H as <-; exists e, x; repeat split; assumption
         | intros e0 x H0 Hx _; injection H0 as <-; rewrite Hx; eexists; reflexivity ]).
  - split; [intros v' H; discriminate H | intros e0 x _ _ H; discriminate H].
  - rewrite push_back_array_item.
    change (type_eqb (type (EArray l)) JSON_ARRAY) with true. cbv iota. split.
    + intros v' H. destruct (non_pointer_type e) eqn:E; [|discriminate H].
      injection H as <-. exists e, e. split; [reflexivity|].
      split; [now apply assign_non_pointer_type|]. split; [exact E|].
      cbn. rewrite length_app. cbn. repeat split.
      replace (length l + 1 - 1) with (length l) by lia.
      rewrite nth_error_app2 by lia. now rewrite Nat.sub_diag.
    + intros e0 x H0 _ H. injection H0 as <-. rewrite H. eexists; reflexivity.
  - split; [intros v' H; discriminate H | intros e0 x _ _ H; discriminate H].
  - rewrite push_back_undefined. split.
    + intros v' H. destruct (assign e) as [x|] eqn:E; [|discriminate H].
      injection H as <-. exists e, x. repeat split; assumption.
    + intros e0 x H0 Hx _. injection H0 as <-. rewrite Hx. eexists; reflexivity.
Qed.

Lemma push_back_result_witness :
  push_back (ENumber (double_of_Z 5)) (Separate (EString sample_string))
  = Some (EArray [ENumber (double_of_Z 5); EString sample_string])
  /\ push_back (EArray [ETrue]) (Separate (EString sample_string)) = None
  /\ exists e x, Separate (EString sample_string) = Separate e /\ assign e = Some x
       /\ index (EArray [ENumber (double_of_Z 5); EString sample_string]) (2 - 1) = Some x.
Proof.
  split; [reflexivity|]. split; [reflexivity|].
  destruct (proj1 (push_back_result (ENumber (double_of_Z 5)) (Separate (EString sample_string)))
              (EArray [ENumber (double_of_Z 5); EString sample_string]) eq_refl)
    as (e & x & H1 & H2 & _ & _ & _ & _ & H3).
  exists e, x. split; [exact H1|]. split; [exact H2 | exact H3].
Defined.

(** The append of an array whose items are no Strings, Arrays or Bytes. *)
Lemma push_back_all_value (w : element) (a : list element) :
  forallb non_pointer_type a = true ->
  push_back_all w a
  = match w with
    | EUndefined => Some (EArray a)
    | EArray l => Some (EArray (l ++ a))
    | EString _ | EByte _ => None
    | _ => Some (EArray (w :: a))
    end.
Proof.
  intro H.
  assert (assign (EArray a) = Some (EArray a)) as Ha.
  { apply assign_well_formed. cbn. rewrite forallb_forall in *. intros e He.
    apply non_pointer_type_well_formed. auto. }
  pose proof (construct_copies a H) as Hc. unfold construct_copy in Hc.
  destruct w; unfold push_back_all, push_back_array_array, construct_copy;
    try exact Ha; cbn; rewrite ?Hc; reflexivity.
Qed.

Lemma push_back_value (w e : element) :
  non_pointer_type e = true ->
  push_back w (Separate e)
  = match w with
    | EUndefined => Some (EArray [e])
    | EArray l => Some (EArray (l ++ [e]))
    | EString _ | EByte _ => None
    | _ => Some (EArray [w; e])
    end.
Proof.
  intro H.
  destruct w;
    try (rewrite push_back_scalar by (reflexivity || discriminate);
         now rewrite (assign_non_pointer_type e H));
    try reflexivity.
  - now rewrite push_back_array_item, H.
  - now rewrite push_back_undefined, (assign_non_pointer_type e H).
Qed.

Lemma push_back_each_array (a : list element) :
  forallb non_pointer_type a = true ->
  forall l, push_back_each (EArray l) a = Some (EArray (l ++ a)).
Proof.
  induction a as [|x a IH]; intros H l; cbn [push_back_each].
  - now rewrite app_nil_r.
  - cbn in H. apply andb_true_iff in H as [Hx Ha].
    rewrite push_back_array_item, Hx. cbn [and_then].
    rewrite (IH Ha), <- app_assoc. reflexivity.
Qed.

(** X11. For elements that are objects apart from the value and are no
    String, Array or Byte, appending arrays composes: one element is an
    array of one, two appends are the append of the concatenation, and
    appending the items of a non-empty array one by one is appending the
    array; where one side has no defined result, the other has none. *)
Theorem push_back_all_composes (v : element) (a b : list element) :
  forallb non_pointer_type a = true -> forallb non_pointer_type b = true ->
  (forall e, non_pointer_type e = true -> push_back_all v [e] = push_back v (Separate e))
  /\ and_then (push_back_all v a) (fun w => push_back_all w b) = push_back_all v (a ++ b)
  /\ (a <> [] -> push_back_each v a = push_back_all v a).
Proof.
  intros Ha Hb.
  assert (forallb non_pointer_type (a ++ b) = true) as Hab
    by (rewrite forallb_app, Ha, Hb; reflexivity).
  split; [|split].
  - intros e He. rewrite push_back_value by exact He.
    rewrite push_back_all_value by (cbn; now rewrite He).
    reflexivity.
  - rewrite (push_back_all_value v a Ha), (push_back_all_value v (a ++ b) Hab).
    destruct v; cbn [and_then]; rewrite ?(push_back_all_value _ b Hb), ?app_assoc;
      reflexivity.
  - intro Hne. destruct a as [|x a]; [contradiction|].
    cbn in Ha. apply andb_true_iff in Ha as [Hx Ha'].
    cbn [push_back_each]. rewrite (push_back_value v x Hx).
    rewrite push_back_all_value by (cbn; now rewrite Hx, Ha').
    destruct v; cbn [and_then]; rewrite ?(push_back_each_array a Ha'), <- ?app_assoc;
      reflexivity.
Qed.

Lemma push_back_all_composes_witness :
  forallb non_pointer_type [ETrue; ENull] = true
  /\ [ETrue; ENull] <> []
  /\ push_back_each (ENumber (double_of_Z 5)) [ETrue; ENull]
     = push_back_all (ENumber (double_of_Z 5)) [ETrue; ENull]
  /\ push_back_all (ENumber (double_of_Z 5)) [ETrue; ENull]
     = Some (EArray [ENumber (double_of_Z 5); ETrue; ENull]).
Proof.
  assert ([ETrue; ENull] <> []) as H by discriminate.
  split; [reflexivity|]. split; [exact H|]. split; [|reflexivity].
  exact (proj2 (proj2 (push_back_all_composes (ENumber (double_of_Z 5)) [ETrue; ENull] []
                         eq_refl eq_refl)) H).
Defined.

Lemma byte_equality_witness :
  element_eq (EByte [Byte.x01; Byte.xff]) (EByte [Byte.x01; Byte.xff]) = true.
Proof. exact (proj2 (byte_equality [Byte.x01; Byte.xff] [Byte.x01; Byte.xff]) eq_refl). Defined.

(** ** Further facts about the reader *)

Lemma get_space (c0 d : ascii) (rest : list ascii) :
  isspace d = true -> get c0 (stream_of (d :: rest)) = get c0 (stream_of rest).
Proof. intro H. unfold get, stream_of. cbn. now rewrite H. Qed.

Lemma is_quote_not_space (q : ascii) : is_quote q = true -> isspace q = false.
Proof.
  unfold is_quote. intro H.
  apply orb_true_iff in H as [H|H]; apply Ascii.eqb_eq in H; subst; reflexivity.
Qed.

Section StringReader.

Variable indeterminate : ascii.

Local Abbreviation read_string := (parse.read_string indeterminate).

Lemma read_string_loop_until_quote (q : ascii) (rest s : list ascii) :
  is_quote q = true ->
  forall (acc : list ascii) (c : ascii) (fuel : nat),
  is_quote c = false -> forallb (fun d => negb (is_quote d)) s = true ->
  length (drop_space s) < fuel ->
  parse.read_string_loop fuel c acc (stream_of (s ++ q :: rest))
  = Ok (acc ++ c :: drop_space s) (stream_of rest).
Proof.
  intro Hq. induction s as [|d s IH]; intros acc c fuel Hc Hs Hfuel.
  - destruct fuel as [|fuel]; [cbn in Hfuel; lia|].
    cbn [parse.read_string_loop app]. rewrite Hc.
    rewrite get_char by (now apply is_quote_not_space).
    now rewrite read_string_loop_quote.
  - cbn [forallb] in Hs. apply andb_true_iff in Hs as [Hd Hs].
    apply negb_true_iff in Hd. unfold drop_space in *. cbn [filter] in *.
    destruct (isspace d) eqn:Ed; cbn [negb] in *.
    + destruct fuel as [|fuel]; [lia|].
      cbn [parse.read_string_loop app]. rewrite Hc, get_space by exact Ed.
      specialize (IH acc c (S fuel) Hc Hs Hfuel).
      cbn [parse.read_string_loop] in IH. rewrite Hc in IH. exact IH.
    + destruct fuel as [|fuel]; [cbn in Hfuel; lia|].
      cbn [parse.read_string_loop app]. rewrite Hc, get_char by exact Ed.
      rewrite IH; try assumption; [|cbn in Hfuel; lia].
      now rewrite <- app_assoc.
Qed.

(** X12. [read_string] returns the characters in front of the first quote,
    of either kind, without their white space, and leaves the stream behind
    that quote. *)
Theorem read_string_until_quote (q : ascii) (s rest : list ascii) (fuel : nat) :
  is_quote q = true -> forallb (fun d => negb (is_quote d)) s = true ->
  length (drop_space s) <= fuel ->
  read_string fuel (stream_of (s ++ q :: rest)) = Ok (drop_space s) (stream_of rest).
Proof.
  intros Hq. unfold parse.read_string. induction s as [|d s IH]; intros Hs Hfuel.
  - cbn [app]. rewrite get_char by (now apply is_quote_not_space).
    now rewrite read_string_loop_quote.
  - cbn [forallb] in Hs. apply andb_true_iff in Hs as [Hd Hs].
    apply negb_true_iff in Hd. unfold drop_space in *. cbn [filter] in *.
    destruct (isspace d) eqn:Ed; cbn [negb] in *.
    + cbn [app]. rewrite get_space by exact Ed. now apply IH.
    + cbn [app]. rewrite get_char by exact Ed.
      apply (read_string_loop_until_quote q rest s Hq [] d fuel Hd Hs). exact Hfuel.
Qed.

Lemma get_keeps_no_quote (c : ascii) (ist : istream) :
  is_quote c = false -> forallb (fun d => negb (is_quote d)) (buffer ist) = true ->
  is_quote (fst (get c ist)) = false
  /\ forallb (fun d => negb (is_quote d)) (buffer (snd (get c ist))) = true.
Proof.
  intros Hc Hb. unfold get. destruct (fail ist); [now split|].
  assert (forallb (fun d => negb (is_quote d)) (skipws (buffer ist)) = true) as Hs.
  { induction (buffer ist) as [|d l IH]; [reflexivity|]. cbn [skipws].
    cbn [forallb] in Hb. apply andb_true_iff in Hb as [Hd Hl].
    destruct (isspace d); [now apply IH | cbn [forallb]; now rewrite Hd, Hl]. }
  destruct (skipws (buffer ist)) as [|d l]; [now split|].
  cbn [forallb] in Hs. apply andb_true_iff in Hs as [Hd Hl].
  cbn. split; [now apply negb_true_iff | exact Hl].
Qed.

Lemma read_string_loop_without_quote (fuel : nat) :
  forall (c : ascii) (acc : list ascii) (ist : istream),
  is_quote c = false -> forallb (fun d => negb (is_quote d)) (buffer ist) = true ->
  parse.read_string_loop fuel c acc ist = OutOfFuel.
Proof.
  induction fuel as [|fuel IH]; intros c acc ist Hc Hb;
    cbn [parse.read_string_loop]; rewrite Hc; [reflexivity|].
  destruct (get_keeps_no_quote c ist Hc Hb) as [H1 H2].
  destruct (get c ist) as [c' ist']. now apply IH.
Qed.

(** X13. On an input without a quote [read_string] does not return: at the
    end of the input the character last read stays in [c] and the loop goes
    on, whatever fuel it is given. *)
Theorem read_string_unterminated (s : list ascii) (fuel : nat) :
  is_quote indeterminate = false -> forallb (fun d => negb (is_quote d)) s = true ->
  read_string fuel (stream_of s) = OutOfFuel.
Proof.
  intros Hi Hs. unfold parse.read_string.
  destruct (get_keeps_no_quote indeterminate (stream_of s) Hi Hs) as [H1 H2].
  destruct (get indeterminate (stream_of s)) as [c ist].
  now apply read_string_loop_without_quote.
Qed.

End StringReader.

Lemma read_string_until_quote_witness :
  is_quote "039" = true
  /\ forallb (fun d => negb (is_quote d)) (text "a b") = true
  /\ length (drop_space (text "a b")) <= 2
  /\ parse.read_string NUL 2 (stream_of (text "a b" ++ "039" :: text ",1"))
     = Ok (text "ab") (stream_of (text ",1")).
Proof.
  split; [reflexivity|]. split; [reflexivity|].
  assert (length (drop_space (text "a b")) <= 2) as H by (cbn; apply le_n).
  split; [exact H|].
  exact (read_string_until_quote NUL "039" (text "a b") (text ",1") 2 eq_refl eq_refl H).
Defined.

Lemma read_string_unterminated_witness :
  is_quote NUL = false /\ forallb (fun d => negb (is_quote d)) (text "abc") = true
  /\ parse.read_string NUL 7 (stream_of (text "abc")) = OutOfFuel.
Proof.
  split; [reflexivity|]. split; [reflexivity|].
  exact (read_string_unterminated NUL (text "abc") 7 eq_refl eq_refl).
Defined.

(** X14. On an input that holds nothing but white space [read_value] ends
    in a failed assertion, unless the unassigned [char] it then tests holds
    a bracket, a brace or a quote. *)
Theorem read_value_blank_input (indeterminate : ascii)
  (scan_double : list ascii -> option (double * list ascii))
  (s : list ascii) (fuel : nat) :
  skipws s = [] ->
  existsb (Ascii.eqb indeterminate) ["]"; "}"; "["; "034"; "039"] = false ->
  parse.read_value indeterminate scan_double (S fuel) (stream_of s) = AssertionFailure.
Proof.
  intros Hs Hi. rewrite read_value_S.
  assert (forall c0, get c0 (stream_of s) = (c0, mk_istream [] true)) as Hget
    by (intro c0; unfold get, stream_of; cbn; now rewrite Hs).
  rewrite Hget.
  destruct indeterminate as [[] [] [] [] [] [] [] []]; try discriminate Hi; reflexivity.
Qed.

Lemma read_value_blank_input_witness :
  skipws (text "  ") = []
  /\ existsb (Ascii.eqb NUL) ["]"; "}"; "["; "034"; "039"] = false
  /\ parse.read_value NUL scan_integer 1 (stream_of (text "  ")) = AssertionFailure.
Proof.
  split; [reflexivity|]. split; [reflexivity|].
  exact (read_value_blank_input NUL scan_integer (text "  ") 0 eq_refl eq_refl).
Defined.

Lemma strcpy_nul_free_result (s : list ascii) : nul_free (strcpy s).
Proof.
  unfold nul_free. induction s as [|c s IH]; [reflexivity|]. cbn [strcpy].
  destruct (Ascii.eqb c NUL) eqn:E; [reflexivity|]. cbn. now rewrite E.
Qed.

(** A value built from a C string holds a string that satisfies the
    invariant. *)
Lemma construct_string_well_formed (s : list ascii) :
  exists v, construct_string s 0 = Some v /\ read_result_ok v = true.
Proof.
  exists (EString (string_ (strlen s) (strcpy s))).
  unfold read_result_ok, construct_string. cbn. rewrite N.leb_refl.
  split; [reflexivity|]. rewrite andb_true_r.
  unfold string_ok. cbn. rewrite <- strlen_strcpy.
  rewrite (strlen_nul_free _ (strcpy_nul_free_result s)), N.eqb_refl.
  exact (strcpy_nul_free_result s).
Qed.

Lemma read_result_ok_inv (v : element) :
  read_result_ok v = true ->
  plain_json v = true /\ well_formed v = true /\ arrays_non_empty v = true.
Proof.
  unfold read_result_ok. intro H.
  apply andb_true_iff in H as [H H3]. apply andb_true_iff in H as [H1 H2]. auto.
Qed.

Lemma read_result_ok_array (l : list element) :
  l <> [] -> Forall (fun x => read_result_ok x = true) l ->
  read_result_ok (EArray l) = true.
Proof.
  intros Hne H. unfold read_result_ok. cbn.
  assert (forallb plain_json l = true /\ forallb well_formed l = true
          /\ forallb arrays_non_empty l = true) as (H1 & H2 & H3).
  { rewrite Forall_forall in H. repeat split; apply forallb_forall; intros x Hx;
      apply (H x) in Hx; now apply read_result_ok_inv in Hx. }
  rewrite H1, H2, H3. destruct l; [contradiction | reflexivity].
Qed.

Lemma read_result_ok_items (l : list element) :
  read_result_ok (EArray l) = true ->
  l <> [] /\ Forall (fun x => read_result_ok x = true) l.
Proof.
  intro H. apply read_result_ok_inv in H as (H1 & H2 & H3). cbn in H1, H2, H3.
  apply andb_true_iff in H3 as [Hne H3]. split; [now destruct l|].
  rewrite forallb_forall in H1, H2, H3. apply Forall_forall. intros x Hx.
  unfold read_result_ok. now rewrite (H1 x Hx), (H2 x Hx), (H3 x Hx).
Qed.

Section ReaderResults.

Variable indeterminate : ascii.
Variable scan_double : list ascii -> option (double * list ascii).

Local Abbreviation read_value := (parse.read_value indeterminate scan_double).
Local Abbreviation read_array := (parse.read_array indeterminate scan_double).

(** The array under construction in [read_array] is Undefined or holds at
    least one item, and its items are results of [read_value]. *)
Lemma push_back_read_result (v a v' : element) :
  v = EUndefined \/ read_result_ok v = true /\ type v = JSON_ARRAY ->
  read_result_ok a = true ->
  push_back v (Separate a) = Some v' ->
  read_result_ok v' = true /\ type v' = JSON_ARRAY.
Proof.
  intros Hv Ha H.
  assert (assign a = Some a) as Ea
    by (apply assign_well_formed; now apply read_result_ok_inv in Ha).
  destruct Hv as [-> | [Hv Ht]].
  - rewrite push_back_undefined, Ea in H. injection H as <-. split; [|reflexivity].
    apply read_result_ok_array; [discriminate | now constructor].
  - destruct v as [ | | |l| | | | | | | | ]; try discriminate Ht.
    rewrite push_back_array_item in H.
    destruct (non_pointer_type a); [|discriminate H]. injection H as <-.
    split; [|reflexivity].
    apply read_result_ok_items in Hv as [_ Hv].
    apply read_result_ok_array; [now destruct l|].
    apply Forall_app. split; [exact Hv | now constructor].
Qed.

Lemma reader_results (fuel : nat) :
  (forall ist v ist', read_value fuel ist = Ok v ist' ->
     v = EUndefined \/ read_result_ok v = true)
  /\ (forall acc ist v ist',
        acc = EUndefined \/ read_result_ok acc = true /\ type acc = JSON_ARRAY ->
        read_array fuel acc ist = Ok v ist' ->
        v = EUndefined \/ read_result_ok v = true /\ type v = JSON_ARRAY).
Proof.
  induction fuel as [|fuel [IHv IHa]]; [split; intros; discriminate|]. split.
  - intros ist v ist' H. rewrite read_value_S in H.
    unfold bind, ensure, defined in H.
    repeat match type of H with
           | context [match ?x with _ => _ end] => destruct x eqn:?; try discriminate H
           end;
      injection H as <- <-; try (right; reflexivity); try (now left).
    + match goal with E : read_array _ _ _ = Ok ?a _ |- _ =>
        destruct (IHa EUndefined _ a _ (or_introl eq_refl) E) as [-> | [Ha _]]
      end.
      * match goal with E : assign EUndefined = Some _ |- _ => injection E as <- end.
        now left.
      * right.
        match goal with E : assign _ = Some _ |- _ =>
          rewrite assign_well_formed in E by (now apply read_result_ok_inv in Ha);
          injection E as <-
        end.
        exact Ha.
    + right.
      match goal with E : construct_string ?s 0 = Some _ |- _ =>
        destruct (construct_string_well_formed s) as (w & Ew & Hw);
        rewrite Ew in E; injection E as <-
      end.
      exact Hw.
  - intros acc ist v ist' Hacc H. rewrite read_array_S in H. unfold bind in H.
    destruct (read_value fuel ist) as [a ist1| | |] eqn:E; try discriminate H.
    destruct (operator_bool a) eqn:Ea.
    + destruct (IHv _ _ _ E) as [-> | Ha]; [discriminate Ea|].
      destruct (push_back acc (Separate a)) as [acc'|] eqn:Ep; [|discriminate H].
      apply (IHa acc' ist1 v ist'); [|exact H].
      right. exact (push_back_read_result acc a acc' Hacc Ha Ep).
    + injection H as <- <-. exact Hacc.
Qed.

(** X15. Whatever the input, a value that [read_value] returns is Undefined
    or is built from String, Number, Array, True, False and Null nodes only,
    with well-formed strings and without an empty array at any depth; and
    the extraction operator returns it unchanged. *)
Theorem read_value_result (fuel : nat) (ist ist' : istream) (v : element) :
  read_value fuel ist = Ok v ist' ->
  (v = EUndefined \/ read_result_ok v = true)
  /\ read indeterminate scan_double fuel ist = Ok v ist'.
Proof.
  intro H. pose proof (proj1 (reader_results fuel) ist v ist' H) as Hv.
  split; [exact Hv|]. unfold read. rewrite H. cbn [bind].
  destruct Hv as [-> | Hv]; [reflexivity|].
  rewrite assign_well_formed; [reflexivity|]. now apply read_result_ok_inv in Hv.
Qed.

End ReaderResults.

Lemma read_value_result_witness :
  parse.read_value NUL scan_integer 9 (stream_of (text "['a b' 1 ,null]x"))
  = Ok (EArray [EString (string_ 2 (text "ab")); ENumber (double_of_Z 1); ENull])
       (stream_of (text "x"))
  /\ read_result_ok
       (EArray [EString (string_ 2 (text "ab")); ENumber (double_of_Z 1); ENull]) = true.
Proof.
  assert (parse.read_value NUL scan_integer 9 (stream_of (text "['a b' 1 ,null]x"))
          = Ok (EArray [EString (string_ 2 (text "ab")); ENumber (double_of_Z 1); ENull])
               (stream_of (text "x"))) as H by reflexivity.
  split; [exact H|].
  destruct (proj1 (read_value_result NUL scan_integer 9 _ _ _ H)) as [E|E];
    [discriminate E | exact E].
Defined.

(** ** Objects *)

Lemma std_string_lt_irrefl (s : std_string) : std_string_lt s s = false.
Proof.
  unfold std_string_lt. induction s as [|c s IH]; [reflexivity|].
  cbn. now rewrite Z.ltb_irrefl.
Qed.

Lemma std_string_unordered_eq (s t : std_string) :
  std_string_lt s t = false -> std_string_lt t s = false -> s = t.
Proof.
  unfold std_string_lt. revert t.
  induction s as [|c s IH]; intros [|d t]; cbn; try discriminate; [reflexivity|].
  destruct (Z.ltb_spec (uchar c) (uchar d)); [discriminate|].
  destruct (Z.ltb_spec (uchar d) (uchar c)); [discriminate|].
  intros H1 H2. f_equal; [apply uchar_inj; lia | now apply IH].
Qed.

Lemma std_string_lt_trans (s t u : std_string) :
  std_string_lt s t = true -> std_string_lt t u = true -> std_string_lt s u = true.
Proof. exact (proj1 (std_string_order_laws s t u I I)). Qed.

Lemma keys_increase_two (a b : pair) (o : object) :
  keys_increase (a :: b :: o)
  = std_string_lt (fst a) (fst b) && keys_increase (b :: o).
Proof. reflexivity. Qed.

Lemma keys_increase_cons (kv : pair) (o : object) :
  keys_increase (kv :: o) = true ->
  keys_increase o = true
  /\ forall kv', In kv' o -> std_string_lt (fst kv) (fst kv') = true.
Proof.
  revert kv. induction o as [|kv0 o IH]; intros kv H.
  - split; [reflexivity | intros ? []].
  - rewrite keys_increase_two in H. apply andb_true_iff in H as [H1 H2].
    split; [exact H2|]. intros kv' [<- | Hin]; [exact H1|].
    destruct (IH kv0 H2) as [_ H3].
    exact (std_string_lt_trans _ _ _ H1 (H3 kv' Hin)).
Qed.

Lemma place_head (kv kv0 : pair) (o : object) :
  keys_increase (kv0 :: o) = true -> std_string_lt (fst kv0) (fst kv) = true ->
  exists kv1 o1, place kv o = kv1 :: o1 /\ std_string_lt (fst kv0) (fst kv1) = true.
Proof.
  intros H Hlt. destruct o as [|[k1 v1] o]; cbn [place].
  - eauto.
  - rewrite keys_increase_two in H. apply andb_true_iff in H as [H1 _]. cbn [fst] in H1.
    destruct (std_string_lt (fst kv) k1); [eauto|].
    destruct (std_string_lt k1 (fst kv)); eauto.
Qed.

Lemma place_keys_increase (kv : pair) (o : object) :
  keys_increase o = true -> keys_increase (place kv o) = true.
Proof.
  induction o as [|[k0 v0] o IH]; intro H; [reflexivity|]. cbn [place].
  destruct (std_string_lt (fst kv) k0) eqn:E1.
  - rewrite keys_increase_two. cbn [fst]. now rewrite E1, H.
  - destruct (std_string_lt k0 (fst kv)) eqn:E2; [|exact H].
    destruct (place_head kv (k0, v0) o H E2) as (kv1 & o1 & Eq & Hlt).
    destruct (keys_increase_cons _ _ H) as [Ho _]. specialize (IH Ho).
    rewrite Eq in *. rewrite keys_increase_two. cbn [fst] in *. now rewrite Hlt, IH.
Qed.

(** What [insert] comes to: nothing defined for a String, an Array or a
    Byte, the placed entry for the other values. *)
Lemma insert_place (kv : pair) (o : object) :
  insert kv o = if non_pointer_type (snd kv) then Some (place kv o) else None.
Proof.
  unfold insert, construct_copy. destruct kv as [k v]. cbn [fst snd].
  now destruct (non_pointer_type v).
Qed.

Lemma insert_keys_increase (kv : pair) (o o' : object) :
  keys_increase o = true -> insert kv o = Some o' -> keys_increase o' = true.
Proof.
  intros H E. rewrite insert_place in E.
  destruct (non_pointer_type (snd kv)); [|discriminate E].
  injection E as <-. now apply place_keys_increase.
Qed.

Lemma lookup_below (k : std_string) (o : object) :
  (forall kv, In kv o -> std_string_lt k (fst kv) = true) -> lookup k o = None.
Proof.
  unfold lookup. induction o as [|kv o IH]; intro H; [reflexivity|]. cbn [find].
  rewrite (H kv (or_introl eq_refl)). cbn [negb andb].
  apply IH. intros kv' Hin. apply H. now right.
Qed.

Lemma lookup_head (k : std_string) (v : element) (o : object) :
  lookup k ((k, v) :: o) = Some v.
Proof. unfold lookup. cbn [find fst]. rewrite std_string_lt_irrefl. reflexivity. Qed.

Lemma lookup_tail (k : std_string) (kv : pair) (o : object) :
  k <> fst kv -> lookup k (kv :: o) = lookup k o.
Proof.
  intro H. unfold lookup. cbn [find].
  destruct (std_string_lt k (fst kv)) eqn:E1; [reflexivity|].
  destruct (std_string_lt (fst kv) k) eqn:E2; [reflexivity|].
  exfalso. apply H. now apply std_string_unordered_eq.
Qed.

Lemma std_string_lt_neq (s t : std_string) : std_string_lt s t = true -> s <> t.
Proof. intros H ->. now rewrite std_string_lt_irrefl in H. Qed.

Lemma place_then_lookup (kv : pair) (o : object) :
  keys_increase o = true ->
  lookup (fst kv) (place kv o)
  = Some (match lookup (fst kv) o with
          | Some v => v
          | None => snd kv
          end)
  /\ (forall k, k <> fst kv -> lookup k (place kv o) = lookup k o).
Proof.
  intro H. split.
  - induction o as [|[k0 v0] o IH].
    + cbn [place]. destruct kv as [k v]. now rewrite lookup_head.
    + cbn [place]. destruct (keys_increase_cons _ _ H) as [Ho Hall].
      destruct (std_string_lt (fst kv) k0) eqn:E1.
      * destruct kv as [k v]. cbn [fst snd] in *. rewrite lookup_head.
        match goal with
        | |- context [lookup ?k ?l] => rewrite (lookup_below k l); [reflexivity|]
        end.
        intros kv' [<- | Hin]; [exact E1|].
        exact (std_string_lt_trans _ _ _ E1 (Hall kv' Hin)).
      * destruct (std_string_lt k0 (fst kv)) eqn:E2.
        -- assert (fst kv <> k0) as Hne
             by (intro E; rewrite E, std_string_lt_irrefl in E2; discriminate E2).
           rewrite !(lookup_tail (fst kv) (k0, v0)) by exact Hne.
           exact (IH Ho).
        -- pose proof (std_string_unordered_eq _ _ E1 E2) as E.
           destruct kv as [k v]. cbn [fst snd] in *. subst k0.
           now rewrite !lookup_head.
  - intros k Hk. clear H. induction o as [|[k0 v0] o IH].
    + cbn [place]. now rewrite lookup_tail.
    + cbn [place]. destruct (std_string_lt (fst kv) k0) eqn:E1.
      * now rewrite (lookup_tail k kv).
      * destruct (std_string_lt k0 (fst kv)) eqn:E2; [|reflexivity].
        unfold lookup in *. cbn [find fst].
        destruct (negb (std_string_lt k k0) && negb (std_string_lt k0 k)); [reflexivity|].
        exact IH.
Qed.

(** X16. [std::map::insert] as [read_members] uses it: the insert has a
    defined result exactly when the value of the entry is no String, Array
    or Byte, which the copy constructor cannot copy into the node.  On a map
    whose keys increase, the entry found under the inserted key afterwards
    is then the one the map held already, or else the inserted value; every
    other key finds what it found before, and the keys still increase. *)
Theorem insert_then_lookup (kv : pair) (o : object) :
  keys_increase o = true ->
  (insert kv o = None <-> non_pointer_type (snd kv) = false)
  /\ forall o', insert kv o = Some o' ->
       lookup (fst kv) o'
       = Some (match lookup (fst kv) o with
               | Some v => v
               | None => snd kv
               end)
       /\ (forall k, k <> fst kv -> lookup k o' = lookup k o)
       /\ keys_increase o' = true.
Proof.
  intro H. rewrite insert_place. split.
  - destruct (non_pointer_type (snd kv)); split; (discriminate || reflexivity).
  - intros o' E. destruct (non_pointer_type (snd kv)); [|discriminate E].
    injection E as <-. destruct (place_then_lookup kv o H) as [H1 H2].
    split; [exact H1|]. split; [exact H2 | now apply place_keys_increase].
Qed.

Lemma insert_then_lookup_witness :
  keys_increase [(text "a", ETrue); (text "c", EFalse)] = true
  /\ insert (text "c", ENull) [(text "a", ETrue); (text "c", EFalse)]
     = Some [(text "a", ETrue); (text "c", EFalse)]
  /\ insert (text "b", ENull) [(text "a", ETrue); (text "c", EFalse)]
     = Some [(text "a", ETrue); (text "b", ENull); (text "c", EFalse)]
  /\ insert (text "b", EString sample_string) [(text "a", ETrue); (text "c", EFalse)] = None
  /\ lookup (text "c") [(text "a", ETrue); (text "c", EFalse)] = Some EFalse
  /\ lookup (text "b") [(text "a", ETrue); (text "b", ENull); (text "c", EFalse)]
     = Some ENull.
Proof.
  split; [reflexivity|]. split; [reflexivity|]. split; [reflexivity|].
  split; [reflexivity|]. split.
  - exact (proj1 (proj2 (insert_then_lookup (text "c", ENull)
                           [(text "a", ETrue); (text "c", EFalse)] eq_refl)
                    _ eq_refl)).
  - exact (proj1 (proj2 (insert_then_lookup (text "b", ENull)
                           [(text "a", ETrue); (text "c", EFalse)] eq_refl)
                    _ eq_refl)).
Defined.

Section ObjectReader.

Variable indeterminate : ascii.
Variable scan_double : list ascii -> option (double * list ascii).
Variable write_double : double -> list ascii.
Variable write_pointer : Z -> list ascii.

Local Abbreviation read_value := (parse.read_value indeterminate scan_double).
Local Abbreviation read_pair := (parse.read_pair indeterminate scan_double).
Local Abbreviation read_members_loop := (parse.read_members_loop indeterminate scan_double).
Local Abbreviation read_members := (parse.read_members indeterminate scan_double).
Local Abbreviation read_object := (parse.read_object indeterminate scan_double).
Local Abbreviation write := (write_value write_double write_pointer).
Local Abbreviation rt := (round_trippable scan_double write_double).

Lemma read_members_loop_keys (fuel : nat) :
  forall o kv ist o' ist',
  keys_increase o = true -> read_members_loop fuel o kv ist = Ok o' ist' ->
  keys_increase o' = true.
Proof.
  induction fuel as [|fuel IH]; intros o kv ist o' ist' Ho H; [discriminate|].
  cbn [parse.read_members_loop] in H. unfold bind in H.
  destruct (read_pair fuel kv ist) as [[more kv1] ist1| | |]; try discriminate H.
  destruct more.
  - destruct (insert kv1 o) as [o1|] eqn:E; [|discriminate H].
    apply (IH _ _ _ _ _ (insert_keys_increase kv1 o o1 Ho E) H).
  - now injection H as <- <-.
Qed.

(** X17. In an object returned by [read_members] or [read_object] the keys
    increase strictly: no key occurs twice. *)
Theorem read_object_keys (fuel : nat) (ist ist' : istream) (o : object) :
  read_members fuel ist = Ok o ist' \/ read_object fuel ist = Ok o ist' ->
  keys_increase o = true.
Proof.
  intros [H|H].
  - exact (read_members_loop_keys fuel [] _ ist o ist' eq_refl H).
  - unfold parse.read_object, bind in H.
    destruct (ensure (parse.eat indeterminate "{" ist)) as [u ist1| | |]; try discriminate H.
    exact (read_members_loop_keys fuel [] _ ist1 o ist' eq_refl H).
Qed.

(** The first member of the text of an object, once the brace is read. *)
Lemma read_pair_member (k : std_string) (v : element) (rest : list ascii)
  (fuel : nat) (kv : pair) :
  forallb kept_char k = true -> length k <= fuel -> well_formed v = true ->
  read_value fuel (stream_of (write v ++ rest)) = Ok v (stream_of rest) ->
  read_pair fuel kv (stream_of (["034"] ++ k ++ ["034"; ":"] ++ write v ++ rest))
  = Ok (true, (k, v)) (stream_of rest).
Proof.
  intros Hk Hlen Hwf Hv. unfold parse.read_pair. cbn [app].
  rewrite get_char by reflexivity.
  cbn [Ascii.eqb Bool.eqb ensure bind is_quote orb].
  unfold parse.read_key.
  rewrite (read_string_kept indeterminate k fuel) by assumption.
  cbn [bind]. unfold parse.eat. rewrite get_char by reflexivity.
  cbn [Ascii.eqb Bool.eqb ensure bind].
  rewrite Hv. cbn [bind]. now rewrite (assign_well_formed v Hwf).
Qed.

(** X18. The text written for an object with no member is read back as the
    empty object.  For an object with one member, whose key holds no white
    space or quote and whose value is well formed and is read back by
    [read_value] in front of the closing brace, the text is read back as
    that object when the value is no String, Array or Byte; when it is one,
    its copy into the entry of the map has no defined result. *)
Theorem read_object_small (k : std_string) (v : element) (fuel : nat) :
  forallb kept_char k = true -> length k <= fuel -> well_formed v = true ->
  read_value (S fuel) (stream_of (write v ++ ["}"])) = Ok v (stream_of ["}"]) ->
  read_object (S fuel) (stream_of (write_object write_double write_pointer []))
  = Ok [] (stream_of [])
  /\ read_object (S (S fuel)) (stream_of (write_object write_double write_pointer [(k, v)]))
     = if non_pointer_type v then Ok [(k, v)] (stream_of []) else NoDefinedResult.
Proof.
  intros Hk Hlen Hwf Hv. split; [reflexivity|].
  unfold parse.read_object, parse.read_members, write_object.
  cbn [write_items Nat.eqb app fst snd].
  unfold parse.eat at 1. rewrite get_char by reflexivity.
  cbn [Ascii.eqb Bool.eqb ensure bind parse.read_members_loop].
  rewrite <- !app_assoc.
  rewrite (read_pair_member k v ["}"] (S fuel)); try assumption; try lia.
  cbn [bind]. rewrite insert_place. cbn [snd place].
  destruct (non_pointer_type v); [|reflexivity].
  unfold parse.read_pair at 1. rewrite get_char by reflexivity. reflexivity.
Qed.

(** X19. The text written for an object with two members or more is not
    read back.  Behind the first member, whose key holds no white space or
    quote and whose value is round-trippable, a value that is no String or
    Array is put into the map, [read_pair] meets the comma and its assertion
    fails; the copy of a String or an Array into the entry of the map has no
    defined result. *)
Theorem read_object_aborts_on_second_member (k : std_string) (v : element)
  (kv2 : pair) (o : object) (fuel : nat) :
  forallb kept_char k = true -> rt v -> length k <= fuel -> weight v <= fuel ->
  read_object (S (S fuel))
    (stream_of (write_object write_double write_pointer ((k, v) :: kv2 :: o)))
  = if non_pointer_type v then AssertionFailure else NoDefinedResult.
Proof.
  intros Hk Hrt Hlen Hw.
  unfold parse.read_object, parse.read_members, write_object.
  cbn [write_items Nat.eqb app fst snd].
  unfold parse.eat at 1. rewrite get_char by reflexivity.
  cbn [Ascii.eqb Bool.eqb ensure bind parse.read_members_loop].
  rewrite <- !app_assoc. cbn [app].
  match goal with
  | |- context [write v ++ "," :: ?r] =>
      rewrite (read_pair_member k v ("," :: r) (S fuel)); try assumption; try lia
  end.
  - cbn [bind]. rewrite insert_place. cbn [snd].
    destruct (non_pointer_type v); [|reflexivity].
    unfold parse.read_pair at 1. rewrite get_char by reflexivity. reflexivity.
  - exact (rt_well_formed _ _ v Hrt).
  - apply (read_value_write indeterminate scan_double write_double write_pointer v Hrt []);
      [now left | reflexivity | lia].
Qed.

End ObjectReader.

Lemma read_object_keys_witness :
  parse.read_object NUL scan_integer 8 (stream_of two_scalar_members_blank)
  = Ok [(text "a", ENumber (double_of_Z 1)); (text "b", ETrue)] (stream_of [])
  /\ keys_increase [(text "a", ENumber (double_of_Z 1)); (text "b", ETrue)] = true.
Proof.
  assert (parse.read_object NUL scan_integer 8 (stream_of two_scalar_members_blank)
          = Ok [(text "a", ENumber (double_of_Z 1)); (text "b", ETrue)] (stream_of []))
    as H by (vm_compute; reflexivity).
  split; [exact H|].
  exact (read_object_keys NUL scan_integer 8 _ _ _ (or_intror H)).
Defined.

Lemma read_object_small_witness :
  forallb kept_char (text "key") = true
  /\ parse.read_value NUL scan_integer 4
       (stream_of (write_value write_integral no_pointer (ENumber (double_of_Z 7)) ++ ["}"]))
     = Ok (ENumber (double_of_Z 7)) (stream_of ["}"])
  /\ parse.read_object NUL scan_integer 5
       (stream_of (write_object write_integral no_pointer
                     [(text "key", ENumber (double_of_Z 7))]))
     = Ok [(text "key", ENumber (double_of_Z 7))] (stream_of []).
Proof.
  split; [reflexivity|]. split; [reflexivity|].
  refine (proj2 (read_object_small NUL scan_integer write_integral no_pointer
                   (text "key") (ENumber (double_of_Z 7)) 3 eq_refl _ eq_refl eq_refl)).
  cbn. repeat constructor.
Defined.

Lemma read_object_aborts_on_second_member_witness :
  forallb kept_char (text "a") = true
  /\ round_trippable scan_integer write_integral (ENumber (double_of_Z 5))
  /\ parse.read_object NUL scan_integer 3
       (stream_of (write_object write_integral no_pointer
                     [(text "a", ENumber (double_of_Z 5)); (text "b", ETrue)]))
     = AssertionFailure.
Proof.
  pose proof (proj1 sample_numbers_round_trip) as Hrt.
  split; [reflexivity|]. split; [exact Hrt|].
  refine (read_object_aborts_on_second_member NUL scan_integer write_integral no_pointer
            (text "a") (ENumber (double_of_Z 5)) (text "b", ETrue) [] 1 eq_refl Hrt _ _).
  - cbn. repeat constructor.
  - cbn. repeat constructor.
Defined.

(** ** Further facts about equality, the writer and the reader *)

(** X20. An element is equal to itself exactly when it holds no Null, no
    Undefined and no NaN at any depth. *)
Theorem element_eq_reflexive_iff (a : element) :
  element_eq a a = free_of_null_and_nan a.
Proof.
  induction a as [s|d|p|l IH| | | |x|i|i|t|] using element_nested_ind;
    try reflexivity; cbn.
  - unfold string_eq. now rewrite N.eqb_refl, strcmp_refl.
  - unfold SFeqb. rewrite SFcompare_refl. now destruct (is_nan d).
  - apply Z.eqb_refl.
  - rewrite Nat.eqb_refl. cbn [andb].
    induction IH as [|a l Ha _ IHl]; [reflexivity|]. cbn. rewrite Ha.
    now destruct (free_of_null_and_nan a).
  - unfold byte_eq. now rewrite Nat.eqb_refl, memcmp_eq_std_equal, std_equal_byte_refl.
  - apply Z.eqb_refl.
  - apply Z.eqb_refl.
  - apply Z.eqb_refl.
Qed.

Lemma write_items_Forall2 {A : Type} (w : A -> list ascii) (l l' : list A) :
  Forall2 (fun x y => w y = w x) l l' -> forall i, write_items w i l' = write_items w i l.
Proof.
  induction 1 as [|x y l l' Hx _ IH]; intro i; [reflexivity|].
  cbn. now rewrite Hx, IH.
Qed.

(** X21. Where the assignment from a value has a defined result, the value
    and its copy are written as the same text. *)
Theorem write_value_assign (write_double : double -> list ascii)
  (write_pointer : Z -> list ascii) (e e' : element) :
  assign e = Some e' ->
  write_value write_double write_pointer e'
  = write_value write_double write_pointer e.
Proof.
  revert e'.
  induction e as [s|d|p|l IH| | | |x|i|i|t|] using element_nested_ind;
    intros e' H; try (cbn in H; injection H as <-; reflexivity).
  - cbn in H. unfold construct_string in H.
    destruct (strlen (data s) <=? _)%N; [|discriminate H].
    injection H as <-. cbn. now rewrite strcpy_idempotent.
  - cbn in H. destruct (map_option assign l) as [l'|] eqn:E; [|discriminate H].
    injection H as <-. cbn. f_equal. f_equal.
    apply write_items_Forall2. apply map_option_Some in E. clear -IH E.
    induction E as [|x y l l' Hx _ IHE]; [constructor|].
    inversion IH as [|? ? IHx IHl]; subst. constructor; [exact (IHx y Hx) | exact (IHE IHl)].
  - cbn in H. rewrite construct_byte_all in H. now injection H as <-.
Qed.

Lemma write_value_assign_witness :
  assign (EArray [EString (string_ 5 ["h"; "i"; NUL; "x"]); ETrue])
  = Some (EArray [EString (string_ 5 (text "hi")); ETrue])
  /\ write_value write_integral no_pointer (EArray [EString (string_ 5 (text "hi")); ETrue])
     = write_value write_integral no_pointer
         (EArray [EString (string_ 5 ["h"; "i"; NUL; "x"]); ETrue]).
Proof.
  split; [reflexivity|].
  exact (write_value_assign write_integral no_pointer
           (EArray [EString (string_ 5 ["h"; "i"; NUL; "x"]); ETrue])
           (EArray [EString (string_ 5 (text "hi")); ETrue]) eq_refl).
Defined.

Lemma get_spaces (c0 : ascii) (w s : list ascii) :
  forallb isspace w = true -> get c0 (stream_of (w ++ s)) = get c0 (stream_of s).
Proof.
  induction w as [|d w IH]; intro H; [reflexivity|].
  cbn [forallb] in H. apply andb_true_iff in H as [Hd Hw].
  cbn [app]. rewrite get_space by exact Hd. now apply IH.
Qed.

(** X22. White space in front of the input changes nothing for
    [read_value], [read_string], [read_pair] and [read_object]. *)
Theorem leading_space_skipped (indeterminate : ascii)
  (scan_double : list ascii -> option (double * list ascii))
  (w s : list ascii) (fuel : nat) (kv : pair) :
  forallb isspace w = true ->
  parse.read_value indeterminate scan_double fuel (stream_of (w ++ s))
  = parse.read_value indeterminate scan_double fuel (stream_of s)
  /\ parse.read_string indeterminate fuel (stream_of (w ++ s))
     = parse.read_string indeterminate fuel (stream_of s)
  /\ parse.read_pair indeterminate scan_double fuel kv (stream_of (w ++ s))
     = parse.read_pair indeterminate scan_double fuel kv (stream_of s)
  /\ parse.read_object indeterminate scan_double fuel (stream_of (w ++ s))
     = parse.read_object indeterminate scan_double fuel (stream_of s).
Proof.
  intro H. repeat split.
  - destruct fuel; [reflexivity|]. rewrite !read_value_S. now rewrite get_spaces.
  - unfold parse.read_string. now rewrite get_spaces.
  - unfold parse.read_pair. now rewrite get_spaces.
  - unfold parse.read_object, parse.eat. now rewrite get_spaces.
Qed.

Lemma leading_space_skipped_witness :
  forallb isspace (text "  ") = true
  /\ parse.read_value NUL scan_integer 3 (stream_of (text "  " ++ text "true"))
     = parse.read_value NUL scan_integer 3 (stream_of (text "true")).
Proof.
  split; [reflexivity|].
  exact (proj1 (leading_space_skipped NUL scan_integer (text "  ") (text "true") 3
                  ([], EUndefined) eq_refl)).
Defined.

Lemma eat_char (indeterminate x c : ascii) (rest : list ascii) :
  isspace c = false ->
  parse.eat indeterminate x (stream_of (c :: rest)) = (Ascii.eqb x c, stream_of rest).
Proof. intro H. unfold parse.eat. now rewrite get_char. Qed.

(** X23. A keyword that goes wrong aborts: when the input starts with the
    first [n] letters of [true], [false] or [null], at least one and not all
    of them, and goes on with a character, not white space, that is not the
    next letter, [read_value] ends in a failed assertion. *)
Theorem keyword_mismatch (indeterminate : ascii)
  (scan_double : list ascii -> option (double * list ascii))
  (kw : list ascii) (n : nat) (c : ascii) (rest : list ascii) (fuel : nat) :
  In kw keywords -> 1 <= n < length kw -> isspace c = false ->
  nth_error kw n <> Some c ->
  parse.read_value indeterminate scan_double (S fuel)
    (stream_of (firstn n kw ++ c :: rest))
  = AssertionFailure.
Proof.
  intros Hkw Hn Hc Hne.
  assert (forall x, nth_error kw n = Some x -> Ascii.eqb x c = false) as Hx
    by (intros x E; apply Ascii.eqb_neq; congruence).
  destruct Hkw as [<- | [<- | [<- | []]]]; cbn in Hn;
    repeat (destruct n as [|n]; try lia);
    specialize (Hx _ eq_refl);
    rewrite read_value_S; cbn [firstn text list_ascii_of_string app];
    rewrite get_char by reflexivity; cbn [Ascii.eqb Bool.eqb orb is_quote];
    repeat (rewrite eat_char by (assumption || reflexivity); rewrite ?Hx;
            cbn [Ascii.eqb Bool.eqb ensure bind]);
    reflexivity.
Qed.

Lemma keyword_mismatch_witness :
  In (text "false") keywords /\ 1 <= 3 < length (text "false") /\ isspace "x" = false
  /\ nth_error (text "false") 3 <> Some "x"
  /\ parse.read_value NUL scan_integer 1 (stream_of (text "falx,1")) = AssertionFailure.
Proof.
  assert (In (text "false") keywords) as H1 by (right; left; reflexivity).
  assert (1 <= 3 < length (text "false")) as H2 by (cbn; split; repeat constructor).
  assert (nth_error (text "false") 3 <> Some "x") as H3 by discriminate.
  split; [exact H1|]. split; [exact H2|]. split; [reflexivity|]. split; [exact H3|].
  exact (keyword_mismatch NUL scan_integer (text "false") 3 "x" (text ",1") 0
           H1 H2 eq_refl H3).
Defined.

(** X24. An input that starts with a character that opens no array, string
    or keyword is handed to the number scan of the stream, and when that
    scan fails [read_value] ends in a failed assertion: so it does on the
    brace of a nested object. *)
Theorem read_value_scan_failure (indeterminate : ascii)
  (scan_double : list ascii -> option (double * list ascii))
  (c : ascii) (body : list ascii) (fuel : nat) :
  isspace c = false ->
  existsb (Ascii.eqb c) ["]"; "}"; ","; "["; "034"; "039"; "f"; "t"; "n"] = false ->
  scan_double (c :: body) = None ->
  parse.read_value indeterminate scan_double (S fuel) (stream_of (c :: body))
  = AssertionFailure.
Proof.
  intros Hs Hc Hscan. rewrite read_value_S, get_char by exact Hs.
  cbn [existsb] in Hc. unfold is_quote.
  repeat match type of Hc with
         | (?a || ?b)%bool = false => apply orb_false_iff in Hc as [?H Hc]
         end.
  repeat match goal with H : Ascii.eqb c _ = false |- _ => rewrite H; clear H end.
  cbn [orb]. unfold putback, parse.get_double, stream_of. cbn [fail buffer skipws].
  now rewrite Hs, Hscan.
Qed.

Lemma read_value_scan_failure_witness :
  isspace "{" = false
  /\ existsb (Ascii.eqb "{") ["]"; "}"; ","; "["; "034"; "039"; "f"; "t"; "n"] = false
  /\ scan_integer (text "{}") = None
  /\ parse.read_value NUL scan_integer 1 (stream_of (text "{}")) = AssertionFailure.
Proof.
  split; [reflexivity|]. split; [reflexivity|]. split; [reflexivity|].
  exact (read_value_scan_failure NUL scan_integer "{" (text "}") 0 eq_refl eq_refl eq_refl).
Defined.
